(** * Reimagine-Future: the transform-and-share pipeline

    A shallow embedding of the two source files of the repository:

    - [src/App.tsx]: the React component [App], whose seven [useState] cells
      form the client session, its event handlers [handleFileChange],
      [onDrop], [handleReimagine], [handleShare] and [downloadImage], the
      share address and what the render chain shows;
    - the Express server: the [shares] table and the two routes
      [POST /api/share] and [GET /share/:id], alone, under any sequence of
      requests, and answering the component.

    A session is given twice: with every operation run to completion
    ([App.run]) and step by step, with the handlers suspended at their
    [await]s and anything allowed in between ([Live.run]).

    JavaScript values are modelled as the handlers use them: a
    [string | null] cell is an [option string], truthiness is written out,
    an [await] is a point where the handler stops and is resumed with the
    outcome of the call, and [try]/[catch]/[finally] is explicit control
    flow over an optional thrown error. *)

From Stdlib Require Import Ascii String List Bool.
From stdpp Require Import gmap strings.

Import ListNotations.
Local Open Scope string_scope.

(** ** JavaScript helpers *)

Module Js.

(** [!!v] for a value of type [string | null | undefined]: the empty
    string and the absent value are falsy. *)
Definition truthy (v : option string) : bool :=
  match v with
  | Some s => negb (String.eqb s "")
  | None => false
  end.

(** [a || b] where [a : string | undefined] and [b : string]. *)
Definition or_else (a : option string) (b : string) : string :=
  match a with
  | Some s => if String.eqb s "" then b else s
  | None => b
  end.

(** [s.split(c)] for a separator of one character. *)
Fixpoint split (c : ascii) (s : string) : list string :=
  match s with
  | EmptyString => [EmptyString]
  | String a rest =>
      if Ascii.eqb a c then EmptyString :: split c rest
      else match split c rest with
           | w :: ws => String a w :: ws
           | [] => [String a EmptyString]
           end
  end.

(** [xs[i]], [undefined] out of range. *)
Definition at_index {A} (xs : list A) (i : nat) : option A := nth_error xs i.

(** A value interpolated in a template literal: [undefined] prints as
    the word. *)
Definition interpolate (v : option string) : string :=
  match v with
  | Some s => s
  | None => "undefined"
  end.

(** [s.startsWith(p)] *)
Fixpoint startsWith (s p : string) {struct p} : bool :=
  match p with
  | EmptyString => true
  | String a p' =>
      match s with
      | EmptyString => false
      | String b s' => Ascii.eqb a b && startsWith s' p'
      end
  end.

(** [hay] contains [needle] (what a test's [toMatch] on a plain pattern
    checks). *)
Definition includes (hay needle : string) : bool :=
  match String.index 0 needle hay with
  | Some _ => true
  | None => false
  end.

(** A thrown value, as far as the handlers look at it: [err.message]. *)
Record Error := { message : option string }.

End Js.

(** ** The occupation catalogue ([OCCUPATIONS]) *)

Module Job.
Record t := {
  id : string;
  title : string;
  description : string;
  prompt : string;
  color : string
}.
End Job.

Definition OCCUPATIONS : list Job.t := [
  {| Job.id := "interstellar-explorer";
     Job.title := "Interstellar Explorer";
     Job.description := "Venture beyond the stars in a sleek, futuristic space suit.";
     Job.prompt := "Transform the person in the photo into an Interstellar Explorer. They should be wearing a highly detailed, sleek, futuristic white and chrome space suit with glowing blue accents. The background should be the interior of a high-tech spaceship bridge with a view of a colorful nebula through a massive window. Maintain the person's facial features and identity perfectly. Cinematic lighting, photorealistic, 8k resolution.";
     Job.color := "from-blue-500 to-indigo-600" |};
  {| Job.id := "cybernetic-surgeon";
     Job.title := "Cybernetic Surgeon";
     Job.description := "Master of bio-tech integration in a high-tech medical bay.";
     Job.prompt := "Transform the person in the photo into a Cybernetic Surgeon. They should be wearing advanced medical scrubs with integrated fiber-optic sensors and a sleek head-mounted augmented reality display. One arm should have subtle, elegant cybernetic enhancements. The background is a sterile, glowing blue futuristic operating room with holographic medical charts. Maintain facial identity. Photorealistic, professional lighting.";
     Job.color := "from-emerald-500 to-teal-600" |};
  {| Job.id := "deep-sea-architect";
     Job.title := "Deep Sea Architect";
     Job.description := "Designing the underwater cities of tomorrow.";
     Job.prompt := "Transform the person in the photo into a Deep Sea Architect. They are wearing a specialized lightweight diving suit with bioluminescent trim. They are standing in front of a massive glass dome overlooking a sprawling, glowing underwater city with futuristic submersibles. Maintain facial identity. Ethereal underwater lighting, vibrant colors, photorealistic.";
     Job.color := "from-cyan-500 to-blue-600" |};
  {| Job.id := "galactic-diplomat";
     Job.title := "Galactic Diplomat";
     Job.description := "The voice of humanity in the intergalactic council.";
     Job.prompt := "Transform the person in the photo into a Galactic Diplomat. They are wearing elegant, flowing futuristic robes made of iridescent, light-emitting fabric. The setting is a grand, sun-drenched council chamber with alien architecture and holographic star maps in the background. Maintain facial identity. Regal atmosphere, soft cinematic lighting, high detail.";
     Job.color := "from-purple-500 to-pink-600" |};
  {| Job.id := "quantum-ai-engineer";
     Job.title := "Quantum AI Engineer";
     Job.description := "Architecting the minds of the next generation.";
     Job.prompt := "Transform the person in the photo into a Quantum AI Engineer. They are wearing a minimalist tech-wear outfit with subtle glowing circuits. They are surrounded by floating, complex quantum data visualizations and glowing neural network structures in a dark, high-tech lab. Maintain facial identity. Cyberpunk aesthetic, high contrast, neon accents, photorealistic.";
     Job.color := "from-orange-500 to-red-600" |}
].

(** [OCCUPATIONS[0]], the initial value of [selectedJob]. *)
Definition first_job : Job.t :=
  Eval cbv in match OCCUPATIONS with j :: _ => j | [] => Job.Build_t "" "" "" "" "" end.

(** ** The generative provider, at its interface

    [ai.models.generateContent] takes a model name and a list of parts and
    resolves to a response whose candidates, content and parts may each be
    missing (the handler reads them through [?.]). *)

Module Gen.

Record Blob := { data : option string; mimeType : option string }.

Record Part := { inlineData : option Blob; text : option string }.

Record Request := { model : string; contents : list Part }.

Record Content := { parts : option (list Part) }.

Record Candidate := { content : option Content }.

Record Response := { candidates : option (list Candidate) }.

(** The awaited call either rejects with an error or resolves. Anything
    else thrown in the [try] before the response is there reaches the same
    [catch] and counts as a rejection. *)
Inductive Outcome :=
| Rejects (err : Js.Error)
| Resolves (r : Response).

(** [response.candidates?.[0]?.content?.parts] *)
Definition first_parts (r : Response) : option (list Part) :=
  match candidates r with
  | Some (c :: _) =>
      match content c with
      | Some ct => parts ct
      | None => None
      end
  | _ => None
  end.

End Gen.

(** ** What the client sees of [fetch('/api/share')]

    [fetch] may reject; [shareResponse.json()] may reject; the parsed value
    may be [null], on which reading [.id] throws; otherwise [shareData.id]
    is a string or is missing. *)

Module Fetch.

Inductive Outcome :=
| FetchRejects
| JsonRejects
| JsonNull
| JsonValue (id : option string).

(** The identifier the caller gets to store, if any. *)
Definition delivered_id (fo : Outcome) : option string :=
  match fo with
  | JsonValue id => if Js.truthy id then id else None
  | _ => None
  end.

End Fetch.

(** ** The client: component [App] of [src/App.tsx] *)

Module App.

(** The [useState] cells of the component. *)
Record State := {
  selectedJob : Job.t;
  image : option string;
  resultImage : option string;
  shareId : option string;
  isSharing : bool;
  isProcessing : bool;
  error : option string
}.

(** The values passed to [useState] on the first render. *)
Definition initial : State :=
  {| selectedJob := first_job;
     image := None;
     resultImage := None;
     shareId := None;
     isSharing := false;
     isProcessing := false;
     error := None |}.

(** *** The setters *)

Definition setSelectedJob (v : Job.t) (s : State) : State :=
  {| selectedJob := v; image := image s; resultImage := resultImage s;
     shareId := shareId s; isSharing := isSharing s;
     isProcessing := isProcessing s; error := error s |}.

Definition setImage (v : option string) (s : State) : State :=
  {| selectedJob := selectedJob s; image := v; resultImage := resultImage s;
     shareId := shareId s; isSharing := isSharing s;
     isProcessing := isProcessing s; error := error s |}.

Definition setResultImage (v : option string) (s : State) : State :=
  {| selectedJob := selectedJob s; image := image s; resultImage := v;
     shareId := shareId s; isSharing := isSharing s;
     isProcessing := isProcessing s; error := error s |}.

Definition setShareId (v : option string) (s : State) : State :=
  {| selectedJob := selectedJob s; image := image s; resultImage := resultImage s;
     shareId := v; isSharing := isSharing s;
     isProcessing := isProcessing s; error := error s |}.

Definition setIsSharing (v : bool) (s : State) : State :=
  {| selectedJob := selectedJob s; image := image s; resultImage := resultImage s;
     shareId := shareId s; isSharing := v;
     isProcessing := isProcessing s; error := error s |}.

Definition setIsProcessing (v : bool) (s : State) : State :=
  {| selectedJob := selectedJob s; image := image s; resultImage := resultImage s;
     shareId := shareId s; isSharing := isSharing s;
     isProcessing := v; error := error s |}.

Definition setError (v : option string) (s : State) : State :=
  {| selectedJob := selectedJob s; image := image s; resultImage := resultImage s;
     shareId := shareId s; isSharing := isSharing s;
     isProcessing := isProcessing s; error := v |}.

(** *** What the handlers do to the outside, in order *)

Inductive Effect :=
| GenerateContent (req : Gen.Request)
| PostShare (body_image : string)
| ConsoleError.

(** *** Choosing a photo: [handleFileChange] and [onDrop]

    A file, as the handlers look at it: its [type], and what the
    [FileReader] holds in [reader.result] when [onloadend] fires (the data
    URL, or [null] when the read failed). *)

Record File := { file_type : string; reader_result : option string }.

(** The [reader.onloadend] callback, the same in both handlers. *)
Definition onloadend (result : option string) (s : State) : State :=
  setError None (setResultImage None (setImage result s)).

(** [file] is [e.target.files?.[0]]. *)
Definition handleFileChange (file : option File) (s : State) : State :=
  match file with
  | Some f => onloadend (reader_result f) s
  | None => s
  end.

(** [file] is [e.dataTransfer.files?.[0]]. *)
Definition onDrop (file : option File) (s : State) : State :=
  match file with
  | Some f =>
      if Js.startsWith (file_type f) "image/"
      then onloadend (reader_result f) s
      else s
  | None => s
  end.

(** *** [handleReimagine] *)

Definition no_image_message : string :=
  "The AI didn't return an image. Please try again.".

Definition fallback_message : string :=
  "Something went wrong during the transformation.".

(** The argument of [generateContent], built from the data URL in [image]
    and the prompt of the selected occupation. *)
Definition build_request (img : string) (job : Job.t) : Gen.Request :=
  let base64Data := Js.at_index (Js.split "," img) 1 in
  let mimeType :=
    match Js.at_index (Js.split ";" img) 0 with
    | Some head => Js.at_index (Js.split ":" head) 1
    | None => None
    end in
  {| Gen.model := "gemini-2.5-flash-image";
     Gen.contents :=
       [ {| Gen.inlineData := Some {| Gen.data := base64Data; Gen.mimeType := mimeType |};
            Gen.text := None |};
         {| Gen.inlineData := None; Gen.text := Some (Job.prompt job) |} ] |}.

(** The [for ... of] loop stops at the first part with [inlineData]. *)
Fixpoint first_inline (ps : list Gen.Part) : option Gen.Blob :=
  match ps with
  | [] => None
  | p :: rest =>
      match Gen.inlineData p with
      | Some b => Some b
      | None => first_inline rest
      end
  end.

(** The inline image the loop finds in a response, if any. *)
Definition found_inline (r : Gen.Response) : option Gen.Blob :=
  match Gen.first_parts r with
  | Some ps => first_inline ps
  | None => None
  end.

(** [`data:image/png;base64,${part.inlineData.data}`] *)
Definition newImage (b : Gen.Blob) : string :=
  "data:image/png;base64," ++ Js.interpolate (Gen.data b).

(** [setIsProcessing(true); setError(null);] *)
Definition entered (s : State) : State :=
  setError None (setIsProcessing true s).

(** From the call to the first [await]: the guard, the two setters, the
    request. [None] is the early [return]. *)
Definition handleReimagine_enter (s : State) : option (State * Gen.Request) :=
  match image s with
  | Some img =>
      if Js.truthy (Some img)
      then Some (entered s, build_request img (selectedJob s))
      else None
  | None => None
  end.

(** The outer [catch] and the [finally]. *)
Definition catch_block (err : Js.Error) (s : State) : State * list Effect :=
  (setError (Some (Js.or_else (Js.message err) fallback_message)) s, [ConsoleError]).

Definition finally_block (s : State) : State := setIsProcessing false s.

(** Where the handler stands after the provider's answer: finished, or
    suspended at the [await fetch] of the chained share. *)
Inductive Progress :=
| Finished (s : State) (log : list Effect)
| AwaitingShare (s : State) (body_image : string).

(** From the provider's answer to the next [await] or to the end. *)
Definition handleReimagine_onGenerate (po : Gen.Outcome) (s : State) : Progress :=
  match po with
  | Gen.Rejects err =>
      let (s1, log) := catch_block err s in
      Finished (finally_block s1) log
  | Gen.Resolves r =>
      match found_inline r with
      | Some b => AwaitingShare (setResultImage (Some (newImage b)) s) (newImage b)
      | None =>
          let (s1, log) := catch_block {| Js.message := Some no_image_message |} s in
          Finished (finally_block s1) log
      end
  end.

(** The inner [try]/[catch] around the chained share: what is done with
    the answer of [fetch]. A rejection, an unparsable body and a [null]
    body all end in the inner [catch]. *)
Definition store_share (fo : Fetch.Outcome) (s : State) : State * list Effect :=
  match fo with
  | Fetch.FetchRejects | Fetch.JsonRejects | Fetch.JsonNull => (s, [ConsoleError])
  | Fetch.JsonValue id => (if Js.truthy id then setShareId id s else s, [])
  end.

(** From the answer of the chained share to the end: [break], no throw
    since [foundImage] is set, then the [finally]. *)
Definition handleReimagine_onShare (fo : Fetch.Outcome) (s : State) : State * list Effect :=
  let (s1, log) := store_share fo s in
  (finally_block s1, log).

(** One whole invocation, run to completion with nothing interleaved. *)
Definition handleReimagine (po : Gen.Outcome) (fo : Fetch.Outcome) (s : State)
  : State * list Effect :=
  match handleReimagine_enter s with
  | None => (s, [])
  | Some (s1, req) =>
      match handleReimagine_onGenerate po s1 with
      | Finished s2 log => (s2, GenerateContent req :: log)
      | AwaitingShare s2 body =>
          let (s3, log) := handleReimagine_onShare fo s2 in
          (s3, GenerateContent req :: PostShare body :: log)
      end
  end.

(** *** [handleShare] *)

Definition handleShare_enter (s : State) : option (State * string) :=
  match resultImage s with
  | Some img =>
      if Js.truthy (Some img) then Some (setIsSharing true s, img) else None
  | None => None
  end.

Definition handleShare_onResponse (fo : Fetch.Outcome) (s : State) : State * list Effect :=
  let (s1, log) := store_share fo s in
  (setIsSharing false s1, log).

Definition handleShare (fo : Fetch.Outcome) (s : State) : State * list Effect :=
  match handleShare_enter s with
  | None => (s, [])
  | Some (s1, body) =>
      let (s2, log) := handleShare_onResponse fo s1 in
      (s2, PostShare body :: log)
  end.

(** *** What is rendered

    The result column shows one of four panels, chosen by the chain
    [isProcessing ? .. : resultImage ? .. : error ? .. : ..]; they are the
    four states of the session. *)

Inductive Status := Idle | Processing | Ready | Failed.

Definition status (s : State) : Status :=
  if isProcessing s then Processing
  else if Js.truthy (resultImage s) then Ready
  else if Js.truthy (error s) then Failed
  else Idle.

(** [disabled={!image || isProcessing}] on the main button. *)
Definition reimagine_disabled (s : State) : bool :=
  negb (Js.truthy (image s)) || isProcessing s.

(** The [Try Again] button is part of the error panel. *)
Definition retry_rendered (s : State) : bool :=
  match status s with
  | Failed => true
  | _ => false
  end.

(** The QR overlay, inside the result panel: [{shareId && ...}]. *)
Definition qr_rendered (s : State) : bool :=
  match status s with
  | Ready => Js.truthy (shareId s)
  | _ => false
  end.

(** *** Sessions: sequences of completed operations *)

Inductive Op :=
| FileChange (file : option File)
| Drop (file : option File)
| SelectJob (job : Job.t)
| Reimagine (po : Gen.Outcome) (fo : Fetch.Outcome)
| Share (fo : Fetch.Outcome).

Definition apply (op : Op) (s : State) : State :=
  match op with
  | FileChange file => handleFileChange file s
  | Drop file => onDrop file s
  | SelectJob job => setSelectedJob job s
  | Reimagine po fo => fst (handleReimagine po fo s)
  | Share fo => fst (handleShare fo s)
  end.

Definition run (ops : list Op) (s : State) : State :=
  fold_left (fun acc op => apply op acc) ops s.

(** The states a session can be in between two operations. *)
Inductive reachable : State -> Prop :=
| reachable_initial : reachable initial
| reachable_apply s op : reachable s -> reachable (apply op s).

End App.

(** ** The server: the [shares] table and its two routes *)

Module Server.

(** A row of [shares]; the [id] column is the primary key and is the key
    of the map. [created_at] is filled by [CURRENT_TIMESTAMP]. *)
Record Row := { image : string; created_at : string }.

(** [req.body], as far as the route destructures it: [const { image }].
    The body has been parsed by [express.json] before the route runs; the
    field is taken to be a string when it is there, as the client sends
    it. *)
Record Body := { body_image : option string }.

(** The viewer page: the template has two holes, both filled with
    [row.image]. *)
Record Page := { img_src : string; download_href : string }.

Inductive Response :=
| Json200 (id : string)
| Json400 (error : string)
| Text404 (text : string)
| Html200 (page : Page)
| Error500.

(** [app.post("/api/share", ...)]. [uuid] is what [uuidv4()] returns and
    [now] the clock of the database. The [INSERT] of a key that is already
    in the table violates the primary key: [stmt.run] throws and Express
    answers 500. *)
Definition post_share (body : Body) (uuid now : string) (db : gmap string Row)
  : gmap string Row * Response :=
  match body_image body with
  | Some img =>
      if negb (Js.truthy (Some img)) then (db, Json400 "No image provided")
      else
        match db !! uuid with
        | Some _ => (db, Error500)
        | None => (<[uuid := {| image := img; created_at := now |}]> db, Json200 uuid)
        end
  | None => (db, Json400 "No image provided")
  end.

(** [SELECT image FROM shares WHERE id = ?] *)
Definition select_image (id : string) (db : gmap string Row) : option string :=
  image <$> db !! id.

(** [app.get("/share/:id", ...)] *)
Definition get_share (id : string) (db : gmap string Row) : Response :=
  match select_image id db with
  | None => Text404 "Image not found"
  | Some img => Html200 {| img_src := img; download_href := img |}
  end.

(** What [fetch] and [.json()] make of a response of [POST /api/share]:
    the 400 carries a JSON object without [id], the 500 of Express carries
    no JSON. *)
Definition seen_by_client (r : Response) : Fetch.Outcome :=
  match r with
  | Json200 id => Fetch.JsonValue (Some id)
  | Json400 _ => Fetch.JsonValue None
  | _ => Fetch.JsonRejects
  end.

End Server.

(** ** Derived notions used in the statements *)

Module Outcome.

(** The inline image a provider outcome leads the handler to, if any:
    none when the call rejects or the response has no inline part. *)
Definition transformed (po : Gen.Outcome) : option Gen.Blob :=
  match po with
  | Gen.Rejects _ => None
  | Gen.Resolves r => App.found_inline r
  end.

Definition fails (po : Gen.Outcome) : bool :=
  match transformed po with
  | Some _ => false
  | None => true
  end.

(** The message the outer [catch] stores for a failing outcome. *)
Definition failure_message (po : Gen.Outcome) : string :=
  match po with
  | Gen.Rejects err => Js.or_else (Js.message err) App.fallback_message
  | Gen.Resolves _ => App.no_image_message
  end.

End Outcome.

Module Session.

(** An operation that chooses a photo. *)
Definition chooses_photo (op : App.Op) : bool :=
  match op with
  | App.FileChange _ | App.Drop _ => true
  | _ => false
  end.

(** No photo is chosen while a share identifier is held. *)
Fixpoint photo_before_share (ops : list App.Op) (s : App.State) : bool :=
  match ops with
  | [] => true
  | op :: rest =>
      negb (chooses_photo op && Js.truthy (App.shareId s))
      && photo_before_share rest (App.apply op s)
  end.

(** A transform that goes through the guard and fails while an earlier
    result is still held. *)
Definition fails_over_result (op : App.Op) (s : App.State) : bool :=
  match op with
  | App.Reimagine po _ =>
      Outcome.fails po && Js.truthy (App.image s) && Js.truthy (App.resultImage s)
  | _ => false
  end.

Fixpoint no_failure_over_result (ops : list App.Op) (s : App.State) : bool :=
  match ops with
  | [] => true
  | op :: rest =>
      negb (fails_over_result op s) && no_failure_over_result rest (App.apply op s)
  end.

(** [shareId] is non-empty only if [resultImage] is. *)
Definition share_has_result (s : App.State) : Prop :=
  Js.truthy (App.shareId s) = true -> Js.truthy (App.resultImage s) = true.

(** [resultImage] and [error] are not both present. *)
Definition result_xor_error (s : App.State) : Prop :=
  Js.truthy (App.resultImage s) && Js.truthy (App.error s) = false.

End Session.

(** ** Concrete sessions *)

Module Sample.

Definition photoA : string := "data:image/jpeg;base64,QUFB".
Definition photoB : string := "data:image/webp;base64,QkJC".

Definition fileA : App.File :=
  {| App.file_type := "image/jpeg"; App.reader_result := Some photoA |}.
Definition fileB : App.File :=
  {| App.file_type := "image/webp"; App.reader_result := Some photoB |}.

Definition text_part : Gen.Part :=
  {| Gen.inlineData := None; Gen.text := Some "Here is your portrait." |}.

Definition image_part : Gen.Part :=
  {| Gen.inlineData := Some {| Gen.data := Some "Q0ND"; Gen.mimeType := Some "image/jpeg" |};
     Gen.text := None |}.

Definition respond (ps : list Gen.Part) : Gen.Outcome :=
  Gen.Resolves
    {| Gen.candidates := Some [ {| Gen.content := Some {| Gen.parts := Some ps |} |} ] |}.

Definition with_image : Gen.Outcome := respond [text_part; image_part].
Definition without_image : Gen.Outcome := respond [text_part].
Definition quota_error : Gen.Outcome :=
  Gen.Rejects {| Js.message := Some "quota exceeded" |}.

Definition share_ok : Fetch.Outcome := Fetch.JsonValue (Some "tok123").
Definition share_down : Fetch.Outcome := Fetch.FetchRejects.

(** A photo, a transform, a share link. *)
Definition shared : App.State :=
  App.run [App.FileChange (Some fileA); App.Reimagine with_image share_ok] App.initial.

(** ... and then another photo is chosen. *)
Definition reshot : App.State := App.handleFileChange (Some fileB) shared.

(** ... or the button is pressed again and the provider fails. *)
Definition stale : App.State :=
  fst (App.handleReimagine quota_error share_ok shared).

(** The same session, the moment after the button is pressed: the
    handler is suspended at its first [await]. *)
Definition pressed : option (App.State * Gen.Request) :=
  App.handleReimagine_enter (App.handleFileChange (Some fileA) App.initial).

Definition outstanding : App.State :=
  match pressed with
  | Some (s, _) => s
  | None => App.initial
  end.

Definition table : gmap string Server.Row :=
  {[ "tok000" := {| Server.image := photoB; Server.created_at := "2025-01-01 00:00:00" |} ]}.

End Sample.

(** ** The rest of the component *)

Module Ui.

(** The anchor [downloadImage] builds and clicks. *)
Record Download := { href : string; download : string }.

(** [downloadImage]: nothing without a result; otherwise the link points
    at [resultImage] and the file is named after the occupation selected
    when the button is clicked. *)
Definition downloadImage (s : App.State) : option Download :=
  match App.resultImage s with
  | Some img =>
      if Js.truthy (Some img)
      then Some {| href := img;
                   download := "future-" ++ Job.id (App.selectedJob s) ++ ".png" |}
      else None
  | None => None
  end.

(** The download button is drawn under [{resultImage && ...}]. *)
Definition download_rendered (s : App.State) : bool := Js.truthy (App.resultImage s).

(** [shareUrl]; [origin] is [window.location.origin]. *)
Definition shareUrl (origin : string) (s : App.State) : string :=
  match App.shareId s with
  | Some id => if Js.truthy (Some id) then origin ++ "/share/" ++ id else ""
  | None => ""
  end.

(** The occupation buttons drawn as selected: those of [OCCUPATIONS.map]
    for which [selectedJob.id === job.id]. *)
Definition highlighted (s : App.State) : list Job.t :=
  List.filter (fun job => String.eqb (Job.id (App.selectedJob s)) (Job.id job)) OCCUPATIONS.

(** The occupation buttons call [setSelectedJob] with an entry of
    [OCCUPATIONS] and nothing else does. *)
Definition from_buttons (op : App.Op) : Prop :=
  match op with
  | App.SelectJob job => In job OCCUPATIONS
  | _ => True
  end.

Definition is_generate (e : App.Effect) : bool :=
  match e with
  | App.GenerateContent _ => true
  | _ => false
  end.

Definition is_post (e : App.Effect) : bool :=
  match e with
  | App.PostShare _ => true
  | _ => false
  end.

End Ui.

(** ** Data URLs, as [FileReader.readAsDataURL] delivers them *)

Module DataUrl.

(** [c] does not occur in [s]. *)
Fixpoint lacks (c : ascii) (s : string) : bool :=
  match s with
  | EmptyString => true
  | String a rest => negb (Ascii.eqb a c) && lacks c rest
  end.

Definition make (mime payload : string) : string :=
  "data:" ++ mime ++ ";base64," ++ payload.

End DataUrl.

(** ** Requests to the server, one after the other *)

Module Traffic.

Inductive Request :=
| Post (body : Server.Body) (uuid now : string)
| Get (id : string).

Definition handle (rq : Request) (db : gmap string Server.Row)
  : gmap string Server.Row * Server.Response :=
  match rq with
  | Post body uuid now => Server.post_share body uuid now db
  | Get id => (db, Server.get_share id db)
  end.

(** The table after a sequence of requests, and the answers in order. *)
Fixpoint serve (rqs : list Request) (db : gmap string Server.Row)
  : gmap string Server.Row * list Server.Response :=
  match rqs with
  | [] => (db, [])
  | rq :: rest =>
      let (db1, answer) := handle rq db in
      let (db2, answers) := serve rest db1 in
      (db2, answer :: answers)
  end.

(** The identifiers handed out in a list of answers. *)
Fixpoint handed_out (answers : list Server.Response) : list string :=
  match answers with
  | [] => []
  | Server.Json200 id :: rest => id :: handed_out rest
  | _ :: rest => handed_out rest
  end.

End Traffic.

(** ** The component and the server together

    The share requests of the component are answered by the route, unless
    the network is down; other clients use the server as well. *)

Module System.

Inductive Net :=
| Down
| Up (uuid now : string).

(** [fetch('/api/share', ...)] with body [{ image }], then [.json()]. *)
Definition post (net : Net) (image : string) (db : gmap string Server.Row)
  : gmap string Server.Row * Fetch.Outcome :=
  match net with
  | Down => (db, Fetch.FetchRejects)
  | Up uuid now =>
      let (db', answer) :=
        Server.post_share {| Server.body_image := Some image |} uuid now db in
      (db', Server.seen_by_client answer)
  end.

Definition reimagine (po : Gen.Outcome) (net : Net)
    (s : App.State) (db : gmap string Server.Row)
  : App.State * gmap string Server.Row :=
  match App.handleReimagine_enter s with
  | None => (s, db)
  | Some (s1, _) =>
      match App.handleReimagine_onGenerate po s1 with
      | App.Finished s2 _ => (s2, db)
      | App.AwaitingShare s2 image =>
          let (db', fo) := post net image db in
          (fst (App.handleReimagine_onShare fo s2), db')
      end
  end.

Definition share (net : Net) (s : App.State) (db : gmap string Server.Row)
  : App.State * gmap string Server.Row :=
  match App.handleShare_enter s with
  | None => (s, db)
  | Some (s1, image) =>
      let (db', fo) := post net image db in
      (fst (App.handleShare_onResponse fo s1), db')
  end.

Inductive Op :=
| FileChange (file : option App.File)
| Drop (file : option App.File)
| SelectJob (job : Job.t)
| Reimagine (po : Gen.Outcome) (net : Net)
| Share (net : Net)
| Elsewhere (rq : Traffic.Request).

Definition apply (op : Op) (s : App.State) (db : gmap string Server.Row)
  : App.State * gmap string Server.Row :=
  match op with
  | FileChange file => (App.handleFileChange file s, db)
  | Drop file => (App.onDrop file s, db)
  | SelectJob job => (App.setSelectedJob job s, db)
  | Reimagine po net => reimagine po net s db
  | Share net => share net s db
  | Elsewhere rq => (s, fst (Traffic.handle rq db))
  end.

(** A page load on a server whose table holds [db0], and what follows. *)
Inductive reachable (db0 : gmap string Server.Row)
  : App.State -> gmap string Server.Row -> Prop :=
| reachable_load : reachable db0 App.initial db0
| reachable_apply s db op :
    reachable db0 s db ->
    reachable db0 (fst (apply op s db)) (snd (apply op s db)).

End System.

(** ** Between operations *)

Module Rest.

(** What every state between two completed operations of a session
    satisfies: a result or an error is only there with a photo, a result is
    a string the component built itself, and both flags are down. *)
Definition settled (s : App.State) : Prop :=
  (Js.truthy (App.resultImage s) || Js.truthy (App.error s) = true ->
   Js.truthy (App.image s) = true)
  /\ (forall r, App.resultImage s = Some r ->
        Js.startsWith r "data:image/png;base64," = true)
  /\ App.isSharing s = false
  /\ App.isProcessing s = false.

End Rest.

(** ** The session step by step

    The handlers are asynchronous: between the press of a button and the
    answer of the provider, and between the share request and its answer,
    the component is at rest and any other handler may run. What is
    suspended holds no cell: the continuations only call setters, so a
    suspended invocation is counted, not stored. *)

Module Live.

Record State := {
  cells : App.State;
  at_provider : nat;
  at_auto_share : nat;
  at_share : nat
}.

Definition initial : State :=
  {| cells := App.initial; at_provider := 0; at_auto_share := 0; at_share := 0 |}.

Inductive Event :=
| FileChange (file : option App.File)
| Drop (file : option App.File)
| SelectJob (job : Job.t)
| Press
| ProviderAnswers (po : Gen.Outcome)
| AutoShareAnswers (fo : Fetch.Outcome)
| PressShare
| ShareAnswers (fo : Fetch.Outcome).

Definition with_cells (s : App.State) (st : State) : State :=
  {| cells := s; at_provider := at_provider st;
     at_auto_share := at_auto_share st; at_share := at_share st |}.

(** One step. An answer with no invocation waiting for it does not
    happen. *)
Definition step (ev : Event) (st : State) : State :=
  match ev with
  | FileChange file => with_cells (App.handleFileChange file (cells st)) st
  | Drop file => with_cells (App.onDrop file (cells st)) st
  | SelectJob job => with_cells (App.setSelectedJob job (cells st)) st
  | Press =>
      match App.handleReimagine_enter (cells st) with
      | Some (s1, _) =>
          {| cells := s1; at_provider := S (at_provider st);
             at_auto_share := at_auto_share st; at_share := at_share st |}
      | None => st
      end
  | ProviderAnswers po =>
      match at_provider st with
      | S waiting =>
          match App.handleReimagine_onGenerate po (cells st) with
          | App.Finished s2 _ =>
              {| cells := s2; at_provider := waiting;
                 at_auto_share := at_auto_share st; at_share := at_share st |}
          | App.AwaitingShare s2 _ =>
              {| cells := s2; at_provider := waiting;
                 at_auto_share := S (at_auto_share st); at_share := at_share st |}
          end
      | O => st
      end
  | AutoShareAnswers fo =>
      match at_auto_share st with
      | S waiting =>
          {| cells := fst (App.handleReimagine_onShare fo (cells st));
             at_provider := at_provider st;
             at_auto_share := waiting; at_share := at_share st |}
      | O => st
      end
  | PressShare =>
      match App.handleShare_enter (cells st) with
      | Some (s1, _) =>
          {| cells := s1; at_provider := at_provider st;
             at_auto_share := at_auto_share st; at_share := S (at_share st) |}
      | None => st
      end
  | ShareAnswers fo =>
      match at_share st with
      | S waiting =>
          {| cells := fst (App.handleShare_onResponse fo (cells st));
             at_provider := at_provider st;
             at_auto_share := at_auto_share st; at_share := waiting |}
      | O => st
      end
  end.

Definition run (evs : list Event) (st : State) : State :=
  fold_left (fun acc ev => step ev acc) evs st.

(** The steps of an operation that runs to completion. *)
Definition steps_of (op : App.Op) : list Event :=
  match op with
  | App.FileChange file => [FileChange file]
  | App.Drop file => [Drop file]
  | App.SelectJob job => [SelectJob job]
  | App.Reimagine po fo => [Press; ProviderAnswers po; AutoShareAnswers fo]
  | App.Share fo => [PressShare; ShareAnswers fo]
  end.

Definition chooses_photo (ev : Event) : bool :=
  match ev with
  | FileChange _ | Drop _ => true
  | _ => false
  end.

(** A share request is on its way. *)
Definition share_outstanding (st : State) : bool :=
  negb (Nat.eqb (at_auto_share st + at_share st) 0).

(** No photo is chosen while a share identifier is held or a share request
    is on its way. *)
Fixpoint photo_clear_of_share (evs : list Event) (st : State) : bool :=
  match evs with
  | [] => true
  | ev :: rest =>
      negb (chooses_photo ev
            && (Js.truthy (App.shareId (cells st)) || share_outstanding st))
      && photo_clear_of_share rest (step ev st)
  end.

(** What [onloadend] is called with, when the event makes it fire. *)
Definition delivers (ev : Event) : option (option string) :=
  match ev with
  | FileChange (Some f) => Some (App.reader_result f)
  | Drop (Some f) =>
      if Js.startsWith (App.file_type f) "image/" then Some (App.reader_result f) else None
  | _ => None
  end.

(** No read ends empty while a provider call is outstanding. *)
Fixpoint reads_hold (evs : list Event) (st : State) : bool :=
  match evs with
  | [] => true
  | ev :: rest =>
      match delivers ev with
      | Some result => Nat.eqb (at_provider st) 0 || Js.truthy result
      | None => true
      end
      && reads_hold rest (step ev st)
  end.

End Live.

(** ** More concrete data *)

Module Scenario.

(** The handler is suspended on the provider for the first photo when a
    second photo is chosen. *)
Definition overtaken : App.State :=
  App.handleFileChange (Some Sample.fileB) Sample.outstanding.

Definition two_candidates : Gen.Outcome :=
  Gen.Resolves
    {| Gen.candidates :=
         Some [ {| Gen.content := Some {| Gen.parts := Some [Sample.text_part] |} |};
                {| Gen.content := Some {| Gen.parts := Some [Sample.image_part] |} |} ] |}.

Definition posts : list Traffic.Request :=
  [ Traffic.Post {| Server.body_image := Some Sample.photoA |} "tok001" "2025-01-02 10:00:00";
    Traffic.Post {| Server.body_image := Some Sample.photoA |} "tok002" "2025-01-02 10:00:01";
    Traffic.Get "tok001" ].

(** A photo, a press, the provider's image, the share link. *)
Definition stepwise : list Live.Event :=
  [ Live.FileChange (Some Sample.fileA); Live.Press;
    Live.ProviderAnswers Sample.with_image; Live.AutoShareAnswers Sample.share_ok ].

(** The same, with another photo chosen before the share link arrives. *)
Definition photo_before_link : list Live.Event :=
  [ Live.FileChange (Some Sample.fileA); Live.Press;
    Live.ProviderAnswers Sample.with_image;
    Live.FileChange (Some Sample.fileB); Live.AutoShareAnswers Sample.share_ok ].

(** A read that fails while the provider is working. *)
Definition failed_read : App.File :=
  {| App.file_type := "image/png"; App.reader_result := None |}.

Definition read_fails_meanwhile : list Live.Event :=
  [ Live.FileChange (Some Sample.fileA); Live.Press;
    Live.FileChange (Some failed_read); Live.ProviderAnswers Sample.with_image;
    Live.AutoShareAnswers Sample.share_down ].

End Scenario.

(** * Properties *)

(** ** The share routes *)

Section ShareRoutes.

Variables (uuid now : string) (db : gmap string Server.Row).

Lemma post_share_accepts img :
  Js.truthy (Some img) = true ->
  db !! uuid = None ->
  Server.post_share {| Server.body_image := Some img |} uuid now db
  = (<[uuid := {| Server.image := img; Server.created_at := now |}]> db,
     Server.Json200 uuid).
Proof.
  intros Himg Hfresh. unfold Server.post_share. cbn [Server.body_image].
  rewrite Himg. cbn [negb]. now rewrite Hfresh.
Qed.

(** Whatever the route answers with 200 is the key it inserted. *)
Lemma post_share_returns body db' id :
  Server.post_share body uuid now db = (db', Server.Json200 id) ->
  exists img,
    Server.body_image body = Some img
    /\ id = uuid
    /\ db' = <[uuid := {| Server.image := img; Server.created_at := now |}]> db.
Proof.
  unfold Server.post_share.
  destruct (Server.body_image body) as [img|]; [|discriminate].
  destruct (negb (Js.truthy (Some img))); [discriminate|].
  destruct (db !! uuid); [discriminate|].
  intros [= <- <-]. now exists img.
Qed.

(** C7: [POST /api/share] with a body that has no [image], and with
    [image] the empty string, both answer 400 ([InvalidInput]) and leave
    the table of shares as it was. *)
Theorem create_rejects_missing_image :
  Server.post_share {| Server.body_image := None |} uuid now db
  = (db, Server.Json400 "No image provided")
  /\ Server.post_share {| Server.body_image := Some "" |} uuid now db
     = (db, Server.Json400 "No image provided").
Proof. split; reflexivity. Qed.

(** C6: for a non-empty payload, [POST /api/share] followed by the lookup
    of [GET /share/:id] with the identifier that came back gives the
    payload as it was put, marker included: the insert succeeds when the
    fresh identifier is not in the table, and whenever an identifier comes
    back, the row selected under it holds the very string that was posted
    and the page embeds that string. *)
Theorem put_get_round_trip img :
  Js.truthy (Some img) = true ->
  let (db', answer) := Server.post_share {| Server.body_image := Some img |} uuid now db in
  (db !! uuid = None -> answer = Server.Json200 uuid)
  /\ (forall id, answer = Server.Json200 id ->
        Server.select_image id db' = Some img
        /\ Server.get_share id db'
           = Server.Html200 {| Server.img_src := img; Server.download_href := img |}).
Proof.
  intros Himg.
  destruct (Server.post_share _ uuid now db) as [db' answer] eqn:Hpost.
  split.
  - intros Hfresh. rewrite (post_share_accepts img Himg Hfresh) in Hpost.
    now injection Hpost as _ <-.
  - intros id ->. apply post_share_returns in Hpost as (img' & [= <-] & -> & ->).
    unfold Server.get_share, Server.select_image.
    now rewrite lookup_insert_eq.
Qed.

End ShareRoutes.

Lemma put_get_round_trip_witness :
  Js.truthy (Some Sample.photoA) = true
  /\ Server.select_image "tok123"
       (fst (Server.post_share {| Server.body_image := Some Sample.photoA |}
               "tok123" "2025-01-02 10:00:00" Sample.table))
     = Some Sample.photoA.
Proof.
  split; [reflexivity|].
  pose proof (put_get_round_trip "tok123" "2025-01-02 10:00:00" Sample.table
                Sample.photoA eq_refl) as H.
  destruct (Server.post_share _ _ _ _) as [db' answer] eqn:Hpost.
  destruct H as [Hok Hget].
  apply (Hget "tok123"). apply Hok. reflexivity.
Defined.

(** ** One invocation of [handleReimagine], by cases *)

Section OneInvocation.

Variables (po : Gen.Outcome) (fo : Fetch.Outcome) (s : App.State).

Lemma enter_without_photo :
  Js.truthy (App.image s) = false -> App.handleReimagine_enter s = None.
Proof.
  unfold App.handleReimagine_enter.
  destruct (App.image s) as [img|]; [|reflexivity].
  now intros ->.
Qed.

Lemma enter_with_photo img :
  App.image s = Some img -> Js.truthy (Some img) = true ->
  App.handleReimagine_enter s
  = Some (App.entered s, App.build_request img (App.selectedJob s)).
Proof.
  intros Himg Hnonempty. unfold App.handleReimagine_enter.
  now rewrite Himg, Hnonempty.
Qed.

Lemma reimagine_without_photo :
  Js.truthy (App.image s) = false -> App.handleReimagine po fo s = (s, []).
Proof.
  intros H. unfold App.handleReimagine. now rewrite (enter_without_photo H).
Qed.

Lemma reimagine_failure img :
  App.image s = Some img -> Js.truthy (Some img) = true ->
  Outcome.transformed po = None ->
  App.handleReimagine po fo s
  = (App.finally_block (App.setError (Some (Outcome.failure_message po)) (App.entered s)),
     [App.GenerateContent (App.build_request img (App.selectedJob s)); App.ConsoleError]).
Proof.
  intros Himg Hnonempty Hnone. unfold App.handleReimagine.
  rewrite (enter_with_photo img Himg Hnonempty).
  destruct po as [err|r]; cbn in *; [reflexivity|].
  now rewrite Hnone.
Qed.

Lemma reimagine_success img b :
  App.image s = Some img -> Js.truthy (Some img) = true ->
  Outcome.transformed po = Some b ->
  App.handleReimagine po fo s
  = (App.finally_block
       (fst (App.store_share fo (App.setResultImage (Some (App.newImage b)) (App.entered s)))),
     App.GenerateContent (App.build_request img (App.selectedJob s))
     :: App.PostShare (App.newImage b)
     :: snd (App.store_share fo (App.setResultImage (Some (App.newImage b)) (App.entered s)))).
Proof.
  intros Himg Hnonempty Hsome. unfold App.handleReimagine.
  rewrite (enter_with_photo img Himg Hnonempty).
  destruct po as [err|r]; cbn in *; [discriminate|].
  rewrite Hsome. unfold App.handleReimagine_onShare.
  now destruct (App.store_share fo _).
Qed.

(** The three ways an invocation can go. *)
Lemma reimagine_cases :
  (Js.truthy (App.image s) = false /\ App.handleReimagine po fo s = (s, []))
  \/ (exists img, App.image s = Some img /\ Js.truthy (Some img) = true
                  /\ Outcome.transformed po = None)
  \/ (exists img b, App.image s = Some img /\ Js.truthy (Some img) = true
                    /\ Outcome.transformed po = Some b).
Proof.
  destruct (Js.truthy (App.image s)) eqn:Hphoto.
  - right. destruct (App.image s) as [img|] eqn:Himg; [|discriminate].
    destruct (Outcome.transformed po) as [b|] eqn:Hb.
    + right. now exists img, b.
    + left. now exists img.
  - left. split; [reflexivity|]. now apply reimagine_without_photo.
Qed.

End OneInvocation.

(** What the inner [try] of the share does to the cells. *)
Lemma store_share_cells fo s :
  let s' := fst (App.store_share fo s) in
  App.selectedJob s' = App.selectedJob s
  /\ App.image s' = App.image s
  /\ App.resultImage s' = App.resultImage s
  /\ App.isSharing s' = App.isSharing s
  /\ App.isProcessing s' = App.isProcessing s
  /\ App.error s' = App.error s
  /\ App.shareId s'
     = match Fetch.delivered_id fo with Some id => Some id | None => App.shareId s end.
Proof.
  destruct fo as [ | | | [id|]]; cbn; try (repeat split; reflexivity).
  destruct (negb (id =? ""))%string; cbn; repeat split; reflexivity.
Qed.

Lemma delivered_id_truthy fo id :
  Fetch.delivered_id fo = Some id -> Js.truthy (Some id) = true.
Proof.
  destruct fo as [ | | | [id'|]]; cbn; try discriminate.
  destruct (negb (id' =? ""))%string eqn:H; [|discriminate].
  now intros [= <-].
Qed.

Lemma newImage_truthy b : Js.truthy (Some (App.newImage b)) = true.
Proof. reflexivity. Qed.

Lemma failure_message_truthy po : Js.truthy (Some (Outcome.failure_message po)) = true.
Proof.
  destruct po as [[[msg|]]|r]; cbn; try reflexivity.
  destruct (msg =? "")%string eqn:H; cbn; [reflexivity|]. now rewrite H.
Qed.

(** ** Sessions *)

Lemma run_app ops1 ops2 s :
  App.run (ops1 ++ ops2) s = App.run ops2 (App.run ops1 s).
Proof. unfold App.run. apply fold_left_app. Qed.

Lemma run_reachable ops : forall s, App.reachable s -> App.reachable (App.run ops s).
Proof.
  induction ops as [|op ops IH]; intros s Hs; [exact Hs|].
  cbn. apply IH. now constructor.
Qed.

Lemma reachable_shared : App.reachable Sample.shared.
Proof. apply run_reachable. constructor. Qed.

(** No operation, run to completion, leaves the processing flag set. *)
Lemma apply_keeps_idle op s :
  App.isProcessing s = false -> App.isProcessing (App.apply op s) = false.
Proof.
  intros Hidle. destruct op as [file|file|job|po fo|fo]; cbn [App.apply].
  - now destruct file.
  - unfold App.onDrop. destruct file as [f|]; [|assumption].
    now destruct (Js.startsWith _ _).
  - assumption.
  - destruct (reimagine_cases po fo s) as [[_ ->] | [(img & Hi & Ht & Hn) | (img & b & Hi & Ht & Hb)]].
    + assumption.
    + now rewrite (reimagine_failure po fo s img Hi Ht Hn).
    + now rewrite (reimagine_success po fo s img b Hi Ht Hb).
  - unfold App.handleShare, App.handleShare_enter.
    destruct (App.resultImage s) as [img|]; [|assumption].
    destruct (Js.truthy (Some img)); [|assumption].
    unfold App.handleShare_onResponse.
    pose proof (store_share_cells fo (App.setIsSharing true s)) as (_ & _ & _ & _ & Hp & _).
    destruct (App.store_share fo _) as [s1 log]. cbn in *. congruence.
Qed.

Lemma reachable_idle s : App.reachable s -> App.isProcessing s = false.
Proof.
  induction 1 as [|s op _ IH]; [reflexivity|]. now apply apply_keeps_idle.
Qed.

(** ** Choosing a photo *)

(** C2, as stated, fails: in the session [Sample.shared] (a photo, a
    transform, a share link [tok123]) choosing another photo, through the
    file input or by a drop, leaves [shareId] at [tok123]. *)
Lemma share_link_survives_new_photo :
  App.reachable Sample.shared
  /\ App.shareId (App.handleFileChange (Some Sample.fileB) Sample.shared) = Some "tok123"
  /\ App.shareId (App.onDrop (Some Sample.fileB) Sample.shared) = Some "tok123"
  /\ App.shareId (App.handleFileChange (Some Sample.fileB) Sample.shared) <> None.
Proof.
  split; [apply reachable_shared|]. repeat split; discriminate.
Qed.

(** C2, amended: in every state, choosing a file puts what the reader
    holds in [image] and clears [resultImage] and [error]; [shareId], the
    selected occupation and the two flags are left as they were, so the
    session shows the empty panel unless a transform is outstanding.
    [onDrop] does the same for a file whose type starts with [image/] and
    nothing for any other. *)
Theorem new_photo_clears_result_and_error f s :
  let s' := App.handleFileChange (Some f) s in
  App.image s' = App.reader_result f
  /\ App.resultImage s' = None
  /\ App.error s' = None
  /\ App.shareId s' = App.shareId s
  /\ App.selectedJob s' = App.selectedJob s
  /\ App.isSharing s' = App.isSharing s
  /\ App.isProcessing s' = App.isProcessing s
  /\ App.status s' = (if App.isProcessing s then App.Processing else App.Idle)
  /\ App.onDrop (Some f) s
     = (if Js.startsWith (App.file_type f) "image/" then s' else s).
Proof.
  cbn. unfold App.status. cbn. repeat split; reflexivity.
Qed.

(** ** What one completed operation does to the result cells *)

Lemma reimagine_result_cells po fo s :
  let s' := fst (App.handleReimagine po fo s) in
  s' = s
  \/ (Js.truthy (App.image s) = true /\ Outcome.fails po = true
      /\ App.resultImage s' = App.resultImage s
      /\ App.shareId s' = App.shareId s
      /\ App.error s' = Some (Outcome.failure_message po))
  \/ (exists b, Outcome.transformed po = Some b
      /\ App.resultImage s' = Some (App.newImage b)
      /\ App.error s' = None
      /\ App.shareId s'
         = match Fetch.delivered_id fo with Some id => Some id | None => App.shareId s end).
Proof.
  destruct (reimagine_cases po fo s)
    as [[_ ->] | [(img & Hi & Ht & Hn) | (img & b & Hi & Ht & Hb)]].
  - now left.
  - right; left. rewrite (reimagine_failure po fo s img Hi Ht Hn). cbn.
    unfold Outcome.fails. rewrite Hn, Hi, Ht. repeat split; reflexivity.
  - right; right. exists b. rewrite (reimagine_success po fo s img b Hi Ht Hb).
    cbn [fst].
    pose proof (store_share_cells fo
                  (App.setResultImage (Some (App.newImage b))
                     (App.entered s)))
      as (_ & _ & Hr & _ & _ & He & Hs).
    cbn in *. now rewrite Hr, He, Hs.
Qed.

Lemma share_result_cells fo s :
  let s' := fst (App.handleShare fo s) in
  App.resultImage s' = App.resultImage s
  /\ App.error s' = App.error s
  /\ (App.shareId s' = App.shareId s \/ Js.truthy (App.resultImage s) = true).
Proof.
  unfold App.handleShare, App.handleShare_enter.
  destruct (App.resultImage s) as [img|] eqn:Hr; [|cbn; rewrite Hr; auto].
  destruct (Js.truthy (Some img)) eqn:Ht; [|cbn; rewrite Hr; auto].
  unfold App.handleShare_onResponse.
  pose proof (store_share_cells fo (App.setIsSharing true s)) as (_ & _ & Hr' & _ & _ & He & _).
  destruct (App.store_share fo _) as [s1 log]. cbn in *.
  rewrite Hr', He, Hr. auto.
Qed.

Lemma photo_result_cells file s :
  let s' := App.handleFileChange file s in
  s' = s \/ (App.resultImage s' = None /\ App.error s' = None /\ App.shareId s' = App.shareId s).
Proof. destruct file; cbn; auto. Qed.

Lemma drop_result_cells file s :
  let s' := App.onDrop file s in
  s' = s \/ (App.resultImage s' = None /\ App.error s' = None /\ App.shareId s' = App.shareId s).
Proof.
  unfold App.onDrop. destruct file as [f|]; [|now left].
  destruct (Js.startsWith _ _); cbn; auto.
Qed.

(** ** The share link and the result *)

Lemma share_has_result_step op s :
  Session.share_has_result s ->
  negb (Session.chooses_photo op && Js.truthy (App.shareId s)) = true ->
  Session.share_has_result (App.apply op s).
Proof.
  unfold Session.share_has_result. intros Hinv Hguard.
  destruct op as [file|file|job|po fo|fo]; cbn [App.apply].
  - cbn in Hguard. apply negb_true_iff in Hguard.
    destruct (photo_result_cells file s) as [-> | (_ & _ & Hs)]; [assumption|].
    rewrite Hs. congruence.
  - cbn in Hguard. apply negb_true_iff in Hguard.
    destruct (drop_result_cells file s) as [-> | (_ & _ & Hs)]; [assumption|].
    rewrite Hs. congruence.
  - exact Hinv.
  - destruct (reimagine_result_cells po fo s)
      as [-> | [(_ & _ & Hr & Hs & _) | (b & _ & Hr & _ & _)]].
    + assumption.
    + now rewrite Hr, Hs.
    + rewrite Hr. intros _. apply newImage_truthy.
  - destruct (share_result_cells fo s) as (Hr & _ & [Hs | Ht]).
    + now rewrite Hr, Hs.
    + now rewrite Hr.
Qed.

Lemma share_has_result_run ops : forall s,
  Session.share_has_result s ->
  Session.photo_before_share ops s = true ->
  Session.share_has_result (App.run ops s).
Proof.
  induction ops as [|op ops IH]; intros s Hinv Hguard; [exact Hinv|].
  cbn in Hguard. apply andb_true_iff in Hguard as [Hop Hrest].
  cbn. apply IH; [|exact Hrest]. now apply share_has_result_step.
Qed.

(** C1, as stated, fails: in [Sample.reshot] (a photo, a transform, a
    share link, another photo) [shareId] is [tok123] and [resultImage] is
    absent. *)
Lemma share_link_without_result :
  App.reachable Sample.reshot
  /\ App.shareId Sample.reshot = Some "tok123"
  /\ App.resultImage Sample.reshot = None
  /\ ~ Session.share_has_result Sample.reshot.
Proof.
  split.
  { change (App.reachable (App.apply (App.FileChange (Some Sample.fileB)) Sample.shared)).
    constructor. apply reachable_shared. }
  repeat split. intros H. specialize (H eq_refl). discriminate H.
Qed.

(** For operations that each run to completion before the next begins: in
    every state reached from the initial one, when no photo is chosen while
    a share identifier is held, a non-empty [shareId] comes with a non-empty
    [resultImage]. *)
Theorem share_link_has_result ops :
  Session.photo_before_share ops App.initial = true ->
  Js.truthy (App.shareId (App.run ops App.initial)) = true ->
  Js.truthy (App.resultImage (App.run ops App.initial)) = true.
Proof.
  intros Hguard. apply (share_has_result_run ops App.initial); [|exact Hguard].
  intros H. discriminate H.
Qed.

Lemma share_link_has_result_witness :
  Session.photo_before_share
    [App.FileChange (Some Sample.fileA); App.Reimagine Sample.with_image Sample.share_ok]
    App.initial = true
  /\ Js.truthy (App.shareId Sample.shared) = true
  /\ Js.truthy (App.resultImage Sample.shared) = true.
Proof.
  split; [reflexivity|]. split; [reflexivity|].
  apply (share_link_has_result
           [App.FileChange (Some Sample.fileA);
            App.Reimagine Sample.with_image Sample.share_ok]);
    reflexivity.
Defined.

(** ** The result and the error *)

Lemma result_xor_error_step op s :
  Session.result_xor_error s ->
  Session.fails_over_result op s = false ->
  Session.result_xor_error (App.apply op s).
Proof.
  unfold Session.result_xor_error. intros Hinv Hguard.
  destruct op as [file|file|job|po fo|fo]; cbn [App.apply].
  - destruct (photo_result_cells file s) as [-> | (Hr & _ & _)]; [assumption|].
    now rewrite Hr.
  - destruct (drop_result_cells file s) as [-> | (Hr & _ & _)]; [assumption|].
    now rewrite Hr.
  - exact Hinv.
  - destruct (reimagine_result_cells po fo s)
      as [-> | [(Hphoto & Hfails & Hr & _ & _) | (b & _ & _ & He & _)]].
    + assumption.
    + cbn in Hguard. rewrite Hphoto, Hfails in Hguard. cbn in Hguard.
      now rewrite Hr, Hguard.
    + rewrite He. apply andb_false_r.
  - destruct (share_result_cells fo s) as (Hr & He & _). now rewrite Hr, He.
Qed.

Lemma result_xor_error_run ops : forall s,
  Session.result_xor_error s ->
  Session.no_failure_over_result ops s = true ->
  Session.result_xor_error (App.run ops s).
Proof.
  induction ops as [|op ops IH]; intros s Hinv Hguard; [exact Hinv|].
  cbn in Hguard. apply andb_true_iff in Hguard as [Hop Hrest].
  cbn. apply IH; [|exact Hrest].
  apply result_xor_error_step; [exact Hinv|]. now apply negb_true_iff.
Qed.

(** C3, as stated, fails: in [Sample.stale] (a photo, a transform, a second
    press of the button on which the provider rejects) [resultImage] still
    holds the first result and [error] holds the provider's message. *)
Lemma failed_retry_keeps_old_result :
  App.reachable Sample.stale
  /\ App.resultImage Sample.stale = Some "data:image/png;base64,Q0ND"
  /\ App.error Sample.stale = Some "quota exceeded"
  /\ ~ Session.result_xor_error Sample.stale.
Proof.
  split.
  { change (App.reachable
              (App.apply (App.Reimagine Sample.quota_error Sample.share_ok) Sample.shared)).
    constructor. apply reachable_shared. }
  repeat split. intros H. discriminate H.
Qed.

(** C3, amended: in every state reached from the initial one by completed
    operations among which no transform fails while an earlier result is
    held, [resultImage] and [error] are not both present. A transform that
    passes the guard and fails stores its message in [error] and leaves
    [resultImage] as it was: after an earlier success the session ends with
    the error and the earlier result. *)
Theorem result_excludes_error_unless_retry_fails ops s po fo :
  (Session.no_failure_over_result ops App.initial = true ->
   Js.truthy (App.resultImage (App.run ops App.initial))
   && Js.truthy (App.error (App.run ops App.initial)) = false)
  /\ (Js.truthy (App.image s) = true -> Outcome.fails po = true ->
      App.error (fst (App.handleReimagine po fo s)) = Some (Outcome.failure_message po)
      /\ App.resultImage (fst (App.handleReimagine po fo s)) = App.resultImage s).
Proof.
  split.
  - intros Hguard. now apply (result_xor_error_run ops App.initial).
  - intros Hphoto Hfails.
    destruct (App.image s) as [img|] eqn:Hi; [|discriminate].
    unfold Outcome.fails in Hfails.
    destruct (Outcome.transformed po) eqn:Hn; [discriminate|].
    now rewrite (reimagine_failure po fo s img Hi Hphoto Hn).
Qed.

Lemma result_excludes_error_unless_retry_fails_witness :
  Js.truthy (App.resultImage Sample.shared) && Js.truthy (App.error Sample.shared) = false
  /\ App.error Sample.stale = Some "quota exceeded"
  /\ App.resultImage Sample.stale = App.resultImage Sample.shared.
Proof.
  pose proof (result_excludes_error_unless_retry_fails
                [App.FileChange (Some Sample.fileA);
                 App.Reimagine Sample.with_image Sample.share_ok]
                Sample.shared Sample.quota_error Sample.share_ok) as [Hinv Hfail].
  split; [exact (Hinv eq_refl)|exact (Hfail eq_refl eq_refl)].
Defined.

(** ** The guard against a second transform *)

(** C4, as stated, fails: in [Sample.outstanding] (a photo is chosen, the
    button has been pressed, the provider has not answered) the session is
    Processing, and a second invocation of [handleReimagine] goes through
    its guard and issues the request again; run to completion it calls the
    provider and the share route and changes the session. *)
Lemma second_press_calls_provider_again :
  App.status Sample.outstanding = App.Processing
  /\ App.handleReimagine_enter Sample.outstanding
     = Some (Sample.outstanding, App.build_request Sample.photoA first_job)
  /\ snd (App.handleReimagine Sample.with_image Sample.share_ok Sample.outstanding)
     = [App.GenerateContent (App.build_request Sample.photoA first_job);
        App.PostShare "data:image/png;base64,Q0ND"]
  /\ fst (App.handleReimagine Sample.with_image Sample.share_ok Sample.outstanding)
     <> Sample.outstanding.
Proof. repeat split. discriminate. Qed.

(** C4, amended: while a transform is outstanding the main button is
    disabled and the retry button is not rendered, so the interface offers
    no way to invoke [handleReimagine]; the handler itself looks at [image]
    only: invoked in that state with a photo present it clears [error],
    keeps the flag set and issues the provider request, and it returns at
    once only when there is no photo. *)
Theorem processing_guard_is_the_disabled_button s :
  App.isProcessing s = true ->
  App.reimagine_disabled s = true
  /\ App.retry_rendered s = false
  /\ App.handleReimagine_enter s
     = match App.image s with
       | Some img =>
           if Js.truthy (Some img)
           then Some (App.setError None s, App.build_request img (App.selectedJob s))
           else None
       | None => None
       end.
Proof.
  intros Hp. unfold App.reimagine_disabled, App.retry_rendered, App.status.
  rewrite Hp. split; [apply orb_true_r|]. split; [reflexivity|].
  unfold App.handleReimagine_enter.
  destruct s as [job img res sid sharing processing err]. cbn in *. now subst.
Qed.

Lemma processing_guard_is_the_disabled_button_witness :
  App.isProcessing Sample.outstanding = true
  /\ App.reimagine_disabled Sample.outstanding = true
  /\ App.retry_rendered Sample.outstanding = false.
Proof.
  split; [reflexivity|].
  pose proof (processing_guard_is_the_disabled_button Sample.outstanding eq_refl)
    as (Hd & Hr & _).
  split; assumption.
Defined.

(** ** A successful transform *)

Section SuccessfulTransform.

Variables (s : App.State) (img : string) (po : Gen.Outcome) (b : Gen.Blob)
          (fo : Fetch.Outcome).
Hypothesis photo : App.image s = Some img.
Hypothesis nonempty : Js.truthy (Some img) = true.
Hypothesis transformed : Outcome.transformed po = Some b.

Lemma success_cells :
  let s' := fst (App.handleReimagine po fo s) in
  let log := snd (App.handleReimagine po fo s) in
  App.resultImage s' = Some (App.newImage b)
  /\ App.error s' = None
  /\ App.isProcessing s' = false
  /\ App.status s' = App.Ready
  /\ App.shareId s'
     = match Fetch.delivered_id fo with Some id => Some id | None => App.shareId s end
  /\ exists tail,
       log = App.GenerateContent (App.build_request img (App.selectedJob s))
             :: App.PostShare (App.newImage b) :: tail.
Proof.
  rewrite (reimagine_success po fo s img b photo nonempty transformed).
  cbn [fst snd].
  pose proof (store_share_cells fo
                (App.setResultImage (Some (App.newImage b))
                   (App.entered s)))
    as (_ & _ & Hr & _ & _ & He & Hs).
  unfold App.status. cbn in *. rewrite Hr, He, Hs.
  repeat split. eexists. reflexivity.
Qed.

(** C5, amended: when the transform succeeds and the chained share brings
    back no identifier (the fetch rejects, the body is not JSON or is
    [null], or the answer carries no [id], as an error response does), the
    failure changes no cell but the processing flag, which it lowers:
    whatever the state when the answer arrives, [resultImage], [error],
    [shareId] and [image] are as they were. Run to completion, the
    invocation ends with the session Ready, [resultImage] the new image and
    [error] absent, and with [shareId] as it was before the invocation:
    absent when it was absent, and still the identifier of an earlier
    transform when there was one. The handler's result is a plain state:
    everything the share throws ends in the inner [catch]. *)
Theorem failed_auto_share_keeps_result :
  Fetch.delivered_id fo = None ->
  let s' := fst (App.handleReimagine po fo s) in
  (App.status s' = App.Ready
   /\ App.resultImage s' = Some (App.newImage b)
   /\ App.shareId s' = App.shareId s
   /\ App.error s' = None
   /\ App.isProcessing s' = false)
  /\ forall arrived,
       let settled := fst (App.handleReimagine_onShare fo arrived) in
       App.resultImage settled = App.resultImage arrived
       /\ App.error settled = App.error arrived
       /\ App.shareId settled = App.shareId arrived
       /\ App.image settled = App.image arrived
       /\ App.isProcessing settled = false.
Proof.
  intros Hfo s'. split.
  - destruct success_cells as (Hr & He & Hp & Hst & Hs & _).
    rewrite Hfo in Hs. now repeat split.
  - intros arrived. unfold App.handleReimagine_onShare.
    pose proof (store_share_cells fo arrived) as (_ & Hi & Hr & _ & _ & He & Hs).
    rewrite Hfo in Hs. destruct (App.store_share fo arrived) as [s1 log].
    cbn in *. now repeat split.
Qed.

(** C10: after a successful transform [resultImage] is the fixed prefix
    [data:image/png;base64,] followed by the data of the inline part, and
    the body posted to the share route is the same string; the MIME type
    the provider reports for the part does not enter it. *)
Theorem result_is_labelled_png :
  let s' := fst (App.handleReimagine po fo s) in
  let log := snd (App.handleReimagine po fo s) in
  App.resultImage s' = Some ("data:image/png;base64," ++ Js.interpolate (Gen.data b))
  /\ Js.startsWith ("data:image/png;base64," ++ Js.interpolate (Gen.data b))
       "data:image/png;base64," = true
  /\ In (App.PostShare ("data:image/png;base64," ++ Js.interpolate (Gen.data b))) log
  /\ forall mime,
       App.newImage {| Gen.data := Gen.data b; Gen.mimeType := mime |} = App.newImage b.
Proof.
  intros s' log.
  destruct success_cells as (Hr & _ & _ & _ & _ & tail & Hlog).
  split; [exact Hr|]. split; [reflexivity|]. split; [|reflexivity].
  unfold log. rewrite Hlog. right. now left.
Qed.

End SuccessfulTransform.

(** C5, as stated, fails: in [Sample.reshot] (a photo, a transform, a share
    link [tok123], another photo) the transform succeeds and the chained
    share is down; the session ends Ready with the new result and with
    [shareId] still [tok123], not absent. *)
Lemma old_link_after_failed_auto_share :
  App.reachable Sample.reshot
  /\ Outcome.transformed Sample.with_image
     = Some {| Gen.data := Some "Q0ND"; Gen.mimeType := Some "image/jpeg" |}
  /\ Fetch.delivered_id Sample.share_down = None
  /\ App.status (fst (App.handleReimagine Sample.with_image Sample.share_down Sample.reshot))
     = App.Ready
  /\ App.shareId (fst (App.handleReimagine Sample.with_image Sample.share_down Sample.reshot))
     = Some "tok123"
  /\ App.shareId (fst (App.handleReimagine Sample.with_image Sample.share_down Sample.reshot))
     <> None.
Proof.
  split.
  { change (App.reachable (App.apply (App.FileChange (Some Sample.fileB)) Sample.shared)).
    constructor. apply reachable_shared. }
  repeat split. discriminate.
Qed.

Lemma failed_auto_share_keeps_result_witness :
  let s' := fst (App.handleReimagine Sample.with_image Sample.share_down Sample.reshot) in
  App.status s' = App.Ready
  /\ App.resultImage s' = Some "data:image/png;base64,Q0ND"
  /\ App.shareId s' = App.shareId Sample.reshot
  /\ App.error s' = None
  /\ App.isProcessing s' = false.
Proof.
  exact (proj1 (failed_auto_share_keeps_result Sample.reshot Sample.photoB
                  Sample.with_image
                  {| Gen.data := Some "Q0ND"; Gen.mimeType := Some "image/jpeg" |}
                  Sample.share_down eq_refl eq_refl eq_refl eq_refl)).
Defined.

Lemma result_is_labelled_png_witness :
  App.resultImage Sample.shared = Some "data:image/png;base64,Q0ND".
Proof.
  apply (result_is_labelled_png
           (App.handleFileChange (Some Sample.fileA) App.initial) Sample.photoA
           Sample.with_image
           {| Gen.data := Some "Q0ND"; Gen.mimeType := Some "image/jpeg" |}
           Sample.share_ok eq_refl eq_refl eq_refl).
Defined.

(** ** A failing transform *)

(** C8: in a fresh session, after a photo is chosen and the button is
    pressed, a provider response without any inline part leaves the session
    Failed, with [error] the message that says the AI [didn't return an
    image] and [resultImage] absent; the invocation calls the provider once
    and never the share route. *)
Theorem no_image_fails_session job f img r fo :
  App.reader_result f = Some img ->
  Js.truthy (Some img) = true ->
  App.found_inline r = None ->
  let s1 := App.handleFileChange (Some f) (App.setSelectedJob job App.initial) in
  let s2 := fst (App.handleReimagine (Gen.Resolves r) fo s1) in
  let log := snd (App.handleReimagine (Gen.Resolves r) fo s1) in
  App.status s2 = App.Failed
  /\ App.error s2 = Some App.no_image_message
  /\ Js.includes App.no_image_message "didn't return an image" = true
  /\ App.resultImage s2 = None
  /\ log = [App.GenerateContent (App.build_request img job); App.ConsoleError]
  /\ forall body, ~ In (App.PostShare body) log.
Proof.
  intros Hread Hnonempty Hnone s1 s2 log. subst s2 log.
  assert (Hphoto : App.image s1 = Some img) by (subst s1; exact Hread).
  rewrite (reimagine_failure (Gen.Resolves r) fo s1 img Hphoto Hnonempty Hnone).
  cbn [fst snd]. subst s1. unfold App.status. cbn.
  repeat split.
  intros body [H | [H | []]]; discriminate H.
Qed.

Lemma no_image_fails_session_witness :
  App.status
    (App.run [App.FileChange (Some Sample.fileA);
              App.Reimagine Sample.without_image Sample.share_ok] App.initial)
  = App.Failed.
Proof.
  apply (no_image_fails_session first_job Sample.fileA Sample.photoA
           {| Gen.candidates :=
                Some [ {| Gen.content := Some {| Gen.parts := Some [Sample.text_part] |} |} ] |}
           Sample.share_ok eq_refl eq_refl eq_refl).
Defined.

(** ** The processing flag *)

(** C9: an invocation of [handleReimagine] that passes the guard ends with
    the processing flag down, whether the transform succeeds, the response
    has no image or the provider call rejects; one that returns at the guard
    leaves the flag as it was, which between completed operations is
    down. *)
Theorem processing_flag_is_reset po fo s :
  Js.truthy (App.image s) = true \/ App.isProcessing s = false ->
  App.isProcessing (fst (App.handleReimagine po fo s)) = false.
Proof.
  intros Hpre.
  destruct (reimagine_cases po fo s)
    as [[Hno ->] | [(img & Hi & Ht & Hn) | (img & b & Hi & Ht & Hb)]].
  - destruct Hpre as [Hphoto | Hidle]; [congruence | exact Hidle].
  - now rewrite (reimagine_failure po fo s img Hi Ht Hn).
  - now destruct (success_cells s img po b fo Hi Ht Hb) as (_ & _ & Hp & _).
Qed.

Lemma processing_flag_is_reset_witness :
  App.isProcessing (fst (App.handleReimagine Sample.quota_error Sample.share_ok
                           Sample.outstanding)) = false.
Proof.
  apply processing_flag_is_reset. left. reflexivity.
Defined.

(** ** The client against the server *)

(** X23: when the chained share is answered by the route itself, with a
    fresh identifier, the session holds that identifier, the QR overlay is
    rendered and the page behind it embeds the result image. *)
Lemma chained_share_end_to_end s img po b uuid now (db : gmap string Server.Row) :
  App.image s = Some img -> Js.truthy (Some img) = true ->
  Outcome.transformed po = Some b ->
  Js.truthy (Some uuid) = true -> db !! uuid = None ->
  let posted := Server.post_share {| Server.body_image := Some (App.newImage b) |} uuid now db in
  let s' := fst (App.handleReimagine po (Server.seen_by_client (snd posted)) s) in
  App.shareId s' = Some uuid
  /\ App.qr_rendered s' = true
  /\ Server.get_share uuid (fst posted)
     = Server.Html200 {| Server.img_src := App.newImage b;
                         Server.download_href := App.newImage b |}.
Proof.
  intros Hi Ht Hb Hid Hfresh posted s'. subst s' posted.
  rewrite (post_share_accepts uuid now db _ (newImage_truthy b) Hfresh).
  cbn [fst snd Server.seen_by_client].
  destruct (success_cells s img po b (Fetch.JsonValue (Some uuid)) Hi Ht Hb)
    as (Hr & _ & Hp & Hst & Hs & _).
  cbn [Fetch.delivered_id] in Hs. rewrite Hid in Hs.
  unfold App.qr_rendered. rewrite Hst, Hs, Hid.
  repeat split.
  unfold Server.get_share, Server.select_image. now rewrite lookup_insert_eq.
Qed.

(** A rejected share request reaches the session as an answer without an
    identifier. *)
Lemma rejected_share_delivers_nothing uuid now (db : gmap string Server.Row) body :
  Js.truthy (Server.body_image body) = false ->
  Fetch.delivered_id (Server.seen_by_client (snd (Server.post_share body uuid now db)))
  = None.
Proof.
  unfold Server.post_share.
  destruct (Server.body_image body) as [img|]; [|reflexivity].
  now intros ->.
Qed.

(** What an identifier that is never cleared leads to: after a second
    photo and a second transform whose chained share is down, the overlay
    is rendered with the identifier of the first image. *)
Example first_link_over_second_result :
  let s := fst (App.handleReimagine Sample.with_image Sample.share_down Sample.reshot) in
  App.image s = Some Sample.photoB
  /\ App.status s = App.Ready
  /\ App.qr_rendered s = true
  /\ App.shareId s = Some "tok123".
Proof. repeat split. Qed.

(** ** The request built from the photo *)

Lemma split_lacks c s : DataUrl.lacks c s = true -> Js.split c s = [s].
Proof.
  induction s as [|a s IH]; simpl; [reflexivity|].
  intros [Ha Hs]%andb_true_iff. apply negb_true_iff in Ha.
  now rewrite Ha, (IH Hs).
Qed.

Lemma split_at c a b :
  DataUrl.lacks c a = true ->
  Js.split c (a ++ String c b) = a :: Js.split c b.
Proof.
  induction a as [|x a IH].
  - intros _. change (Js.split c (String c b) = "" :: Js.split c b).
    simpl. now rewrite Ascii.eqb_refl.
  - simpl. intros [Hx Ha]%andb_true_iff. apply negb_true_iff in Hx.
    change (Js.split c (String x (a ++ String c b)) = String x a :: Js.split c b).
    simpl. now rewrite Hx, (IH Ha).
Qed.

Lemma lacks_app c a b :
  DataUrl.lacks c (a ++ b) = DataUrl.lacks c a && DataUrl.lacks c b.
Proof.
  induction a as [|x a IH]; [reflexivity|].
  change (negb (Ascii.eqb x c) && DataUrl.lacks c (a ++ b)
          = negb (Ascii.eqb x c) && DataUrl.lacks c a && DataUrl.lacks c b).
  now rewrite IH, andb_assoc.
Qed.

Lemma string_app_assoc (a b c : string) : (a ++ b) ++ c = a ++ (b ++ c).
Proof.
  induction a as [|x a IH]; [reflexivity|].
  change (String x ((a ++ b) ++ c) = String x (a ++ (b ++ c))). now rewrite IH.
Qed.

(** The pieces [handleReimagine] cuts out of [image]. *)
Lemma build_request_cuts img job :
  App.build_request img job
  = {| Gen.model := "gemini-2.5-flash-image";
       Gen.contents :=
         [ {| Gen.inlineData :=
                Some {| Gen.data := Js.at_index (Js.split "," img) 1;
                        Gen.mimeType :=
                          match Js.at_index (Js.split ";" img) 0 with
                          | Some head => Js.at_index (Js.split ":" head) 1
                          | None => None
                          end |};
              Gen.text := None |};
           {| Gen.inlineData := None; Gen.text := Some (Job.prompt job) |} ] |}.
Proof. reflexivity. Qed.

(** X1: for a data URL [data:<mime>;base64,<payload>] whose MIME type has
    no comma, semicolon or colon and whose payload has no comma, the request
    carries exactly the payload as data and the MIME type as [mimeType],
    followed by the prompt of the selected occupation. *)
Theorem request_carries_photo mime payload job :
  DataUrl.lacks "," mime = true ->
  DataUrl.lacks ";" mime = true ->
  DataUrl.lacks ":" mime = true ->
  DataUrl.lacks "," payload = true ->
  App.build_request (DataUrl.make mime payload) job
  = {| Gen.model := "gemini-2.5-flash-image";
       Gen.contents :=
         [ {| Gen.inlineData := Some {| Gen.data := Some payload; Gen.mimeType := Some mime |};
              Gen.text := None |};
           {| Gen.inlineData := None; Gen.text := Some (Job.prompt job) |} ] |}.
Proof.
  intros Hcomma Hsemi Hcolon Hpayload. rewrite build_request_cuts.
  assert (Hdata : Js.split "," (DataUrl.make mime payload)
                  = ("data:" ++ mime ++ ";base64") :: [payload]).
  { replace (DataUrl.make mime payload)
      with (("data:" ++ mime ++ ";base64") ++ String "," payload)
      by (unfold DataUrl.make; rewrite !string_app_assoc; reflexivity).
    rewrite split_at, (split_lacks _ _ Hpayload); [reflexivity|].
    rewrite !lacks_app, Hcomma. reflexivity. }
  assert (Hhead : Js.split ";" (DataUrl.make mime payload)
                  = ("data:" ++ mime) :: Js.split ";" ("base64," ++ payload)).
  { replace (DataUrl.make mime payload)
      with (("data:" ++ mime) ++ String ";" ("base64," ++ payload))
      by (unfold DataUrl.make; rewrite !string_app_assoc; reflexivity).
    apply split_at. rewrite lacks_app, Hsemi. reflexivity. }
  assert (Hmime : Js.split ":" ("data:" ++ mime) = ["data"; mime]).
  { change ("data:" ++ mime) with ("data" ++ String ":" mime).
    rewrite split_at by reflexivity. now rewrite (split_lacks _ _ Hcolon). }
  rewrite Hdata, Hhead. cbn [Js.at_index nth_error]. rewrite Hmime. reflexivity.
Qed.

Lemma request_carries_photo_witness :
  App.build_request Sample.photoA first_job
  = {| Gen.model := "gemini-2.5-flash-image";
       Gen.contents :=
         [ {| Gen.inlineData :=
                Some {| Gen.data := Some "QUFB"; Gen.mimeType := Some "image/jpeg" |};
              Gen.text := None |};
           {| Gen.inlineData := None; Gen.text := Some (Job.prompt first_job) |} ] |}.
Proof.
  exact (request_carries_photo "image/jpeg" "QUFB" first_job
           eq_refl eq_refl eq_refl eq_refl).
Defined.

(** X2: a non-empty [image] without a comma still passes the guard: the
    provider is called with [data] undefined, and with [mimeType] undefined
    as well when the text before the first semicolon has no colon. *)
Theorem request_without_payload s img :
  App.image s = Some img ->
  Js.truthy (Some img) = true ->
  DataUrl.lacks "," img = true ->
  DataUrl.lacks ":" img = true ->
  App.handleReimagine_enter s
  = Some (App.entered s,
          {| Gen.model := "gemini-2.5-flash-image";
             Gen.contents :=
               [ {| Gen.inlineData := Some {| Gen.data := None; Gen.mimeType := None |};
                    Gen.text := None |};
                 {| Gen.inlineData := None;
                    Gen.text := Some (Job.prompt (App.selectedJob s)) |} ] |}).
Proof.
  intros Hi Ht Hcomma Hcolon.
  rewrite (enter_with_photo s img Hi Ht), build_request_cuts.
  rewrite (split_lacks _ _ Hcomma). cbn [Js.at_index nth_error].
  assert (Hhead : exists head rest,
             Js.split ";" img = head :: rest /\ DataUrl.lacks ":" head = true).
  { clear Hi Ht Hcomma. induction img as [|a img IH]; cbn.
    - now exists "", [].
    - cbn in Hcolon. apply andb_true_iff in Hcolon as [Ha Himg].
      destruct (Ascii.eqb a ";"); [now exists "", (Js.split ";" img)|].
      destruct (IH Himg) as (head & rest & -> & Hhead).
      exists (String a head), rest. cbn. now rewrite Ha, Hhead. }
  destruct Hhead as (head & rest & -> & Hhead).
  now rewrite (split_lacks _ _ Hhead).
Qed.

Lemma request_without_payload_witness :
  option_map snd
    (App.handleReimagine_enter (App.setImage (Some "blob") App.initial))
  = Some {| Gen.model := "gemini-2.5-flash-image";
            Gen.contents :=
              [ {| Gen.inlineData := Some {| Gen.data := None; Gen.mimeType := None |};
                   Gen.text := None |};
                {| Gen.inlineData := None; Gen.text := Some (Job.prompt first_job) |} ] |}.
Proof.
  rewrite (request_without_payload (App.setImage (Some "blob") App.initial) "blob"
             eq_refl eq_refl eq_refl eq_refl).
  reflexivity.
Defined.

(** ** What is read of the response *)

Lemma first_inline_skips ps1 p b ps2 :
  Forall (fun q => Gen.inlineData q = None) ps1 ->
  Gen.inlineData p = Some b ->
  App.first_inline (ps1 ++ p :: ps2)%list = Some b.
Proof.
  intros Hnone Hp. induction Hnone as [|q ps1 Hq _ IH]; cbn.
  - now rewrite Hp.
  - now rewrite Hq.
Qed.

(** X3: the result is made from the first part of the first candidate that
    has [inlineData]: the parts before it without inline data are skipped,
    and neither the parts after it nor the other candidates matter. *)
Theorem first_inline_part_wins s img ps1 p b ps2 others fo :
  App.image s = Some img ->
  Js.truthy (Some img) = true ->
  Forall (fun q => Gen.inlineData q = None) ps1 ->
  Gen.inlineData p = Some b ->
  App.resultImage
    (fst (App.handleReimagine
            (Gen.Resolves
               {| Gen.candidates :=
                    Some ({| Gen.content := Some {| Gen.parts := Some (ps1 ++ p :: ps2)%list |} |}
                          :: others) |})
            fo s))
  = Some ("data:image/png;base64," ++ Js.interpolate (Gen.data b)).
Proof.
  intros Hi Ht Hnone Hp.
  refine (proj1 (success_cells s img _ b fo Hi Ht _)).
  cbn. now apply first_inline_skips.
Qed.

Lemma first_inline_part_wins_witness :
  App.resultImage
    (fst (App.handleReimagine
            (Sample.respond [Sample.text_part; Sample.image_part; Sample.text_part])
            Sample.share_down
            (App.handleFileChange (Some Sample.fileA) App.initial)))
  = Some "data:image/png;base64,Q0ND".
Proof.
  apply (first_inline_part_wins
           (App.handleFileChange (Some Sample.fileA) App.initial) Sample.photoA
           [Sample.text_part] Sample.image_part
           {| Gen.data := Some "Q0ND"; Gen.mimeType := Some "image/jpeg" |}
           [Sample.text_part] [] Sample.share_down);
    try reflexivity.
  repeat constructor.
Defined.

(** X4: an image that is only in a later candidate is not found: when the
    first candidate has no inline part the invocation fails with the
    no-image message, whatever the other candidates hold. *)
Theorem later_candidates_are_ignored s img c others fo :
  App.image s = Some img ->
  Js.truthy (Some img) = true ->
  App.found_inline {| Gen.candidates := Some [c] |} = None ->
  let done := App.handleReimagine
                (Gen.Resolves {| Gen.candidates := Some (c :: others) |}) fo s in
  App.error (fst done) = Some App.no_image_message
  /\ App.resultImage (fst done) = App.resultImage s
  /\ snd done
     = [App.GenerateContent (App.build_request img (App.selectedJob s)); App.ConsoleError].
Proof.
  intros Hi Ht Hnone done. subst done.
  rewrite (reimagine_failure _ fo s img Hi Ht); [now repeat split|].
  exact Hnone.
Qed.

Lemma later_candidates_are_ignored_witness :
  App.error
    (fst (App.handleReimagine Scenario.two_candidates Sample.share_ok
            (App.handleFileChange (Some Sample.fileA) App.initial)))
  = Some App.no_image_message.
Proof.
  exact (proj1 (later_candidates_are_ignored
                  (App.handleFileChange (Some Sample.fileA) App.initial) Sample.photoA
                  {| Gen.content := Some {| Gen.parts := Some [Sample.text_part] |} |}
                  [ {| Gen.content := Some {| Gen.parts := Some [Sample.image_part] |} |} ]
                  Sample.share_ok eq_refl eq_refl eq_refl)).
Defined.

(** ** What an invocation leaves alone *)

Lemma reimagine_frame po fo s :
  let s' := fst (App.handleReimagine po fo s) in
  App.image s' = App.image s
  /\ App.selectedJob s' = App.selectedJob s
  /\ App.isSharing s' = App.isSharing s.
Proof.
  destruct (reimagine_cases po fo s)
    as [[_ ->] | [(img & Hi & Ht & Hn) | (img & b & Hi & Ht & Hb)]].
  - now repeat split.
  - rewrite (reimagine_failure po fo s img Hi Ht Hn). now repeat split.
  - rewrite (reimagine_success po fo s img b Hi Ht Hb). cbn [fst].
    pose proof (store_share_cells fo
                  (App.setResultImage (Some (App.newImage b)) (App.entered s)))
      as (Hj & Hi' & _ & Hsh & _).
    cbn in *. now rewrite Hj, Hi', Hsh.
Qed.

Lemma store_share_log fo s :
  snd (App.store_share fo s) = [] \/ snd (App.store_share fo s) = [App.ConsoleError].
Proof. destruct fo; cbn; auto. Qed.

Lemma share_frame fo s :
  let s' := fst (App.handleShare fo s) in
  App.image s' = App.image s
  /\ App.selectedJob s' = App.selectedJob s
  /\ App.isProcessing s' = App.isProcessing s
  /\ App.isSharing s' = (if Js.truthy (App.resultImage s) then false else App.isSharing s).
Proof.
  unfold App.handleShare, App.handleShare_enter.
  destruct (App.resultImage s) as [img|] eqn:Hr; [|now repeat split].
  cbn [Js.truthy]. destruct (negb (img =? ""))%string; [|now repeat split].
  unfold App.handleShare_onResponse.
  pose proof (store_share_cells fo (App.setIsSharing true s)) as (Hj & Hi & _ & _ & Hp & _).
  destruct (App.store_share fo _) as [s1 log]. cbn in *.
  now rewrite Hj, Hi, Hp.
Qed.

(** X5: an invocation of [handleReimagine], however it ends, leaves the
    photo, the selected occupation and the sharing flag as they were, calls
    the provider at most once and posts to the share route at most once. *)
Theorem reimagine_keeps_photo_and_choice po fo s :
  let s' := fst (App.handleReimagine po fo s) in
  let log := snd (App.handleReimagine po fo s) in
  App.image s' = App.image s
  /\ App.selectedJob s' = App.selectedJob s
  /\ App.isSharing s' = App.isSharing s
  /\ length (List.filter Ui.is_generate log) <= 1
  /\ length (List.filter Ui.is_post log) <= 1.
Proof.
  intros s' log. destruct (reimagine_frame po fo s) as (Hi & Hj & Hs).
  split; [exact Hi|]. split; [exact Hj|]. split; [exact Hs|]. subst log s'.
  destruct (reimagine_cases po fo s)
    as [[_ ->] | [(img & Hi' & Ht & Hn) | (img & b & Hi' & Ht & Hb)]].
  - cbn. lia.
  - rewrite (reimagine_failure po fo s img Hi' Ht Hn). cbn. lia.
  - rewrite (reimagine_success po fo s img b Hi' Ht Hb). cbn [snd].
    destruct (store_share_log fo
                (App.setResultImage (Some (App.newImage b)) (App.entered s)))
      as [-> | ->]; cbn; lia.
Qed.

(** X6: pressing the button again after an invocation has ended sends the
    provider the same request, whatever the first invocation's outcome: the
    guard passes or not as before, and the parts and the prompt are the
    same. *)
Theorem retry_sends_same_request po fo s :
  option_map snd (App.handleReimagine_enter (fst (App.handleReimagine po fo s)))
  = option_map snd (App.handleReimagine_enter s).
Proof.
  destruct (reimagine_frame po fo s) as (Hi & Hj & _).
  unfold App.handleReimagine_enter. rewrite Hi, Hj.
  destruct (App.image s) as [img|]; [|reflexivity].
  now destruct (Js.truthy (Some img)).
Qed.

(** X7: a transform that fails while no earlier result is held, whether
    the provider call rejects or the response has no image, ends with the
    error panel: [error] is the provider's message, or the fallback text
    when the thrown value has no message, and is never empty; the retry
    button is rendered and the main button is enabled; the provider was
    called once and the share route not at all. *)
Theorem failed_transform_shows_error s img po fo :
  App.image s = Some img ->
  Js.truthy (Some img) = true ->
  Js.truthy (App.resultImage s) = false ->
  Outcome.fails po = true ->
  let s' := fst (App.handleReimagine po fo s) in
  let log := snd (App.handleReimagine po fo s) in
  App.status s' = App.Failed
  /\ App.error s' = Some (Outcome.failure_message po)
  /\ Js.truthy (App.error s') = true
  /\ App.retry_rendered s' = true
  /\ App.reimagine_disabled s' = false
  /\ log = [App.GenerateContent (App.build_request img (App.selectedJob s));
            App.ConsoleError].
Proof.
  intros Hi Ht Hr Hfails s' log. subst s' log.
  unfold Outcome.fails in Hfails.
  destruct (Outcome.transformed po) eqn:Hn; [discriminate|].
  rewrite (reimagine_failure po fo s img Hi Ht Hn). cbn [fst snd].
  unfold App.retry_rendered, App.reimagine_disabled, App.status. cbn.
  rewrite Hr, Hi, Ht. pose proof (failure_message_truthy po) as Hm. cbn in Hm.
  rewrite Hm. now repeat split.
Qed.

Lemma failed_transform_shows_error_witness :
  let s' := fst (App.handleReimagine Sample.quota_error Sample.share_ok
                   (App.handleFileChange (Some Sample.fileA) App.initial)) in
  App.status s' = App.Failed /\ App.error s' = Some "quota exceeded".
Proof.
  intros s'.
  pose proof (failed_transform_shows_error
                (App.handleFileChange (Some Sample.fileA) App.initial) Sample.photoA
                Sample.quota_error Sample.share_ok eq_refl eq_refl eq_refl eq_refl)
    as (Hst & He & _).
  split; [exact Hst | exact He].
Defined.

(** ** [handleShare] *)

(** X8: without a result image [handleShare] does nothing: no request is
    sent and no cell changes, the sharing flag included. *)
Theorem share_without_result_is_noop fo s :
  Js.truthy (App.resultImage s) = false ->
  App.handleShare fo s = (s, []).
Proof.
  intros Hr. unfold App.handleShare, App.handleShare_enter.
  destruct (App.resultImage s) as [img|]; [|reflexivity].
  now rewrite Hr.
Qed.

Lemma share_without_result_is_noop_witness :
  App.handleShare Sample.share_ok Sample.reshot = (Sample.reshot, []).
Proof. apply share_without_result_is_noop. reflexivity. Defined.

(** X9: with a result image [handleShare] posts that image once; the
    identifier that comes back replaces [shareId], and when none comes back
    (the fetch rejects, the body does not parse or carries no [id])
    [shareId] stays as it was; the sharing flag ends down and the photo, the
    result, the error, the occupation and the processing flag are
    untouched. *)
Theorem share_posts_result_once fo s img :
  App.resultImage s = Some img ->
  Js.truthy (Some img) = true ->
  let s' := fst (App.handleShare fo s) in
  let log := snd (App.handleShare fo s) in
  App.shareId s'
  = match Fetch.delivered_id fo with Some id => Some id | None => App.shareId s end
  /\ App.isSharing s' = false
  /\ App.resultImage s' = Some img
  /\ App.image s' = App.image s
  /\ App.error s' = App.error s
  /\ App.selectedJob s' = App.selectedJob s
  /\ App.isProcessing s' = App.isProcessing s
  /\ List.filter Ui.is_post log = [App.PostShare img]
  /\ List.filter Ui.is_generate log = [].
Proof.
  intros Hr Ht s' log. subst s' log.
  unfold App.handleShare, App.handleShare_enter. rewrite Hr, Ht.
  unfold App.handleShare_onResponse.
  pose proof (store_share_cells fo (App.setIsSharing true s))
    as (Hj & Hi & Hr' & _ & Hp & He & Hs).
  pose proof (store_share_log fo (App.setIsSharing true s)) as Hlog.
  destruct (App.store_share fo _) as [s1 log]. cbn in *.
  rewrite Hj, Hi, Hr', Hp, He, Hs, Hr.
  repeat split; destruct Hlog as [-> | ->]; reflexivity.
Qed.

Lemma share_posts_result_once_witness :
  App.shareId (fst (App.handleShare (Fetch.JsonValue (Some "tok456")) Sample.shared))
  = Some "tok456".
Proof.
  exact (proj1 (share_posts_result_once (Fetch.JsonValue (Some "tok456")) Sample.shared
                  "data:image/png;base64,Q0ND" eq_refl eq_refl)).
Defined.


(** ** What holds between any two operations *)

Lemma settled_initial : Rest.settled App.initial.
Proof. repeat split; try discriminate. Qed.

Lemma settled_apply op s : Rest.settled s -> Rest.settled (App.apply op s).
Proof.
  intros (Hphoto & Hpng & Hsharing & Hidle).
  assert (Hcleared : forall result, Rest.settled (App.onloadend result s)).
  { intros result. repeat split; cbn; try assumption; discriminate. }
  destruct op as [file|file|job|po fo|fo]; cbn [App.apply].
  - destruct file as [f|]; [apply Hcleared | now repeat split].
  - unfold App.onDrop. destruct file as [f|]; [|now repeat split].
    destruct (Js.startsWith _ _); [apply Hcleared | now repeat split].
  - now repeat split.
  - destruct (reimagine_frame po fo s) as (Hi & _ & Hs).
    pose proof (apply_keeps_idle (App.Reimagine po fo) s Hidle) as Hp.
    cbn [App.apply] in Hp.
    destruct (reimagine_cases po fo s)
      as [[_ Heq] | [(img & Hi' & Ht & Hn) | (img & b & Hi' & Ht & Hb)]].
    + rewrite Heq. now repeat split.
    + split; [intros _; now rewrite Hi, Hi'|].
      split; [|split; [now rewrite Hs | exact Hp]].
      rewrite (reimagine_failure po fo s img Hi' Ht Hn). exact Hpng.
    + split; [intros _; now rewrite Hi, Hi'|].
      split; [|split; [now rewrite Hs | exact Hp]].
      destruct (success_cells s img po b fo Hi' Ht Hb) as (Hr & _).
      cbn zeta in Hr. rewrite Hr. now intros r [= <-].
  - destruct (share_frame fo s) as (Hi & _ & Hp & Hs).
    destruct (share_result_cells fo s) as (Hr & He & _).
    split; [now rewrite Hr, He, Hi|].
    split; [now rewrite Hr|].
    split; [|now rewrite Hp].
    rewrite Hs. now destruct (Js.truthy (App.resultImage s)).
Qed.

Lemma reachable_settled s : App.reachable s -> Rest.settled s.
Proof.
  induction 1 as [|s op _ IH]; [apply settled_initial | now apply settled_apply].
Qed.

(** X11: between operations nothing is left spinning: in every state a
    session reaches by completed operations the processing flag and the
    sharing flag are both down. *)
Theorem flags_down_between_operations s :
  App.reachable s ->
  App.isProcessing s = false /\ App.isSharing s = false.
Proof.
  intros Hreach. now destruct (reachable_settled s Hreach) as (_ & _ & Hs & Hp).
Qed.

Lemma flags_down_between_operations_witness :
  App.isProcessing Sample.shared = false /\ App.isSharing Sample.shared = false.
Proof. apply flags_down_between_operations, reachable_shared. Defined.

(** ** [downloadImage] *)

(** X12: in a session, [downloadImage] offers a link exactly when the
    download button is rendered; the link is [resultImage], which is
    labelled [image/png], and the file is named [future-<id>.png] after the
    occupation selected at that moment. *)
Theorem download_is_the_png_result s :
  App.reachable s ->
  match Ui.downloadImage s with
  | Some link =>
      Ui.download_rendered s = true
      /\ App.resultImage s = Some (Ui.href link)
      /\ Js.startsWith (Ui.href link) "data:image/png;base64," = true
      /\ Ui.download link = "future-" ++ Job.id (App.selectedJob s) ++ ".png"
  | None => Ui.download_rendered s = false
  end.
Proof.
  intros Hreach. destruct (reachable_settled s Hreach) as (_ & Hpng & _).
  unfold Ui.downloadImage, Ui.download_rendered.
  destruct (App.resultImage s) as [img|]; [|reflexivity].
  destruct (Js.truthy (Some img)); [|reflexivity].
  cbn. repeat split. now apply Hpng.
Qed.

Lemma download_is_the_png_result_witness :
  Ui.downloadImage Sample.shared
  = Some {| Ui.href := "data:image/png;base64,Q0ND";
            Ui.download := "future-interstellar-explorer.png" |}.
Proof.
  pose proof (download_is_the_png_result Sample.shared reachable_shared) as H.
  destruct (Ui.downloadImage Sample.shared) as [link|] eqn:Hd; [|discriminate H].
  rewrite <- Hd. reflexivity.
Defined.

(** X13: the name of the downloaded file follows the occupation selected
    when the link is clicked, not the one the image was made with: selecting
    another occupation after the transform changes the file name and leaves
    the image of the link as it was. *)
Theorem download_named_after_current_choice s job link :
  Ui.downloadImage s = Some link ->
  Ui.downloadImage (App.setSelectedJob job s)
  = Some {| Ui.href := Ui.href link;
            Ui.download := "future-" ++ Job.id job ++ ".png" |}.
Proof.
  unfold Ui.downloadImage. cbn [App.resultImage App.setSelectedJob App.selectedJob].
  destruct (App.resultImage s) as [img|]; [|discriminate].
  destruct (Js.truthy (Some img)); [|discriminate].
  now intros [= <-].
Qed.

Lemma download_named_after_current_choice_witness :
  Ui.downloadImage
    (App.setSelectedJob (nth 3 OCCUPATIONS first_job) Sample.shared)
  = Some {| Ui.href := "data:image/png;base64,Q0ND";
            Ui.download := "future-galactic-diplomat.png" |}.
Proof.
  exact (download_named_after_current_choice Sample.shared
           (nth 3 OCCUPATIONS first_job)
           {| Ui.href := "data:image/png;base64,Q0ND";
              Ui.download := "future-interstellar-explorer.png" |} eq_refl).
Defined.

(** ** The occupation buttons *)

Lemma apply_keeps_choice op s :
  Ui.from_buttons op ->
  In (App.selectedJob s) OCCUPATIONS ->
  In (App.selectedJob (App.apply op s)) OCCUPATIONS.
Proof.
  intros Hop Hin. destruct op as [file|file|job|po fo|fo]; cbn [App.apply].
  - now destruct file.
  - unfold App.onDrop. destruct file as [f|]; [|assumption].
    now destruct (Js.startsWith _ _).
  - exact Hop.
  - now destruct (reimagine_frame po fo s) as (_ & -> & _).
  - now destruct (share_frame fo s) as (_ & -> & _).
Qed.

Lemma run_keeps_choice ops : forall s,
  Forall Ui.from_buttons ops ->
  In (App.selectedJob s) OCCUPATIONS ->
  In (App.selectedJob (App.run ops s)) OCCUPATIONS.
Proof.
  induction ops as [|op ops IH]; intros s Hops Hin; [exact Hin|].
  apply Forall_cons in Hops as [Hop Hops].
  cbn. apply IH; [exact Hops|]. now apply apply_keeps_choice.
Qed.

(** X14: in a session where occupations are selected through the buttons
    only, the selected occupation is always an entry of the catalogue,
    exactly one button is drawn as selected and it is that entry's, and the
    prompt sent with a request is that entry's prompt. *)
Theorem one_occupation_is_selected ops :
  Forall Ui.from_buttons ops ->
  let s := App.run ops App.initial in
  In (App.selectedJob s) OCCUPATIONS
  /\ Ui.highlighted s = [App.selectedJob s]
  /\ forall s1 req,
       App.handleReimagine_enter s = Some (s1, req) ->
       exists data, Gen.contents req
                    = [data; {| Gen.inlineData := None;
                                Gen.text := Some (Job.prompt (App.selectedJob s)) |}].
Proof.
  intros Hops s.
  assert (Hin : In (App.selectedJob s) OCCUPATIONS).
  { apply run_keeps_choice; [exact Hops | now left]. }
  split; [exact Hin|]. split.
  - unfold Ui.highlighted. cbn in Hin.
    destruct Hin as [<- | [<- | [<- | [<- | [<- | []]]]]]; reflexivity.
  - intros s1 req. unfold App.handleReimagine_enter.
    destruct (App.image s) as [img|]; [|discriminate].
    destruct (Js.truthy (Some img)); [|discriminate].
    intros [= _ <-]. eexists. reflexivity.
Qed.

Lemma one_occupation_is_selected_witness :
  Ui.highlighted
    (App.run [App.SelectJob (nth 2 OCCUPATIONS first_job);
              App.FileChange (Some Sample.fileA)] App.initial)
  = [nth 2 OCCUPATIONS first_job].
Proof.
  refine (proj1 (proj2 (one_occupation_is_selected
                          [App.SelectJob (nth 2 OCCUPATIONS first_job);
                           App.FileChange (Some Sample.fileA)] _))).
  constructor; [cbn; right; right; left; reflexivity|].
  constructor; [exact I | constructor].
Defined.

(** ** A response that comes late *)

(** X15: the handler does not check that the photo is still the one it
    sent. When another photo is chosen while the provider call is
    outstanding, the response is stored all the same: the session ends Ready
    with the new photo as [image] and, as [resultImage] and as the body of
    the share request, the image made from the earlier photo. *)
Theorem late_response_is_stored s s1 req f po b fo :
  App.handleReimagine_enter s = Some (s1, req) ->
  Outcome.transformed po = Some b ->
  (exists img, App.image s = Some img
               /\ req = App.build_request img (App.selectedJob s))
  /\
  match App.handleReimagine_onGenerate po (App.handleFileChange (Some f) s1) with
  | App.AwaitingShare s2 body =>
      let s3 := fst (App.handleReimagine_onShare fo s2) in
      body = App.newImage b
      /\ App.image s3 = App.reader_result f
      /\ App.resultImage s3 = Some (App.newImage b)
      /\ App.status s3 = App.Ready
  | App.Finished _ _ => False
  end.
Proof.
  intros Henter Hb. split.
  { unfold App.handleReimagine_enter in Henter.
    destruct (App.image s) as [img|]; [|discriminate].
    destruct (Js.truthy (Some img)); [|discriminate].
    injection Henter as _ <-. now exists img. }
  destruct po as [err|r]; cbn in Hb; [discriminate|].
  cbn [App.handleReimagine_onGenerate]. rewrite Hb.
  unfold App.handleReimagine_onShare.
  pose proof (store_share_cells fo
                (App.setResultImage (Some (App.newImage b))
                   (App.handleFileChange (Some f) s1)))
    as (_ & Hi & Hr & _).
  destruct (App.store_share fo _) as [s3 log].
  unfold App.status. cbn in *. rewrite Hi, Hr. now repeat split.
Qed.

Lemma late_response_is_stored_witness :
  match App.handleReimagine_onGenerate Sample.with_image Scenario.overtaken with
  | App.AwaitingShare s2 body =>
      let s3 := fst (App.handleReimagine_onShare Sample.share_down s2) in
      body = "data:image/png;base64,Q0ND"
      /\ App.image s3 = Some Sample.photoB
      /\ App.resultImage s3 = Some "data:image/png;base64,Q0ND"
      /\ App.status s3 = App.Ready
  | App.Finished _ _ => False
  end.
Proof.
  exact (proj2 (late_response_is_stored
           (App.handleFileChange (Some Sample.fileA) App.initial)
           Sample.outstanding (App.build_request Sample.photoA first_job)
           Sample.fileB Sample.with_image
           {| Gen.data := Some "Q0ND"; Gen.mimeType := Some "image/jpeg" |}
           Sample.share_down eq_refl eq_refl)).
Defined.

(** ** The table under any traffic *)

Lemma post_share_cases body uuid now (db : gmap string Server.Row) :
  (fst (Server.post_share body uuid now db) = db
   /\ forall id, snd (Server.post_share body uuid now db) <> Server.Json200 id)
  \/ (exists img,
        Server.body_image body = Some img /\ Js.truthy (Some img) = true
        /\ db !! uuid = None
        /\ Server.post_share body uuid now db
           = (<[uuid := {| Server.image := img; Server.created_at := now |}]> db,
              Server.Json200 uuid)).
Proof.
  unfold Server.post_share.
  destruct (Server.body_image body) as [img|]; [|left; split; [reflexivity|discriminate]].
  destruct (Js.truthy (Some img)) eqn:Ht; cbn [negb];
    [|left; split; [reflexivity|discriminate]].
  destruct (db !! uuid) eqn:Hfresh; [left; split; [reflexivity|discriminate]|].
  right. now exists img.
Qed.

Lemma handle_keeps_rows rq (db : gmap string Server.Row) id row :
  db !! id = Some row -> fst (Traffic.handle rq db) !! id = Some row.
Proof.
  intros Hrow. destruct rq as [body uuid now|id']; [|exact Hrow].
  cbn [Traffic.handle].
  destruct (post_share_cases body uuid now db)
    as [[-> _] | (img & _ & _ & Hfresh & ->)]; [exact Hrow|].
  cbn [fst]. rewrite lookup_insert_ne; [exact Hrow|]. congruence.
Qed.

Lemma handle_keys rq (db : gmap string Server.Row) id :
  is_Some (fst (Traffic.handle rq db) !! id)
  <-> is_Some (db !! id) \/ snd (Traffic.handle rq db) = Server.Json200 id.
Proof.
  destruct rq as [body uuid now|id']; cbn [Traffic.handle fst snd].
  - destruct (post_share_cases body uuid now db)
      as [[-> Hno] | (img & _ & _ & Hfresh & ->)].
    + split; [now left|]. intros [H | H]; [exact H | now destruct (Hno id)].
    + cbn [fst snd]. rewrite lookup_insert_is_Some. split.
      * intros [<- | [_ H]]; [now right | now left].
      * intros [H | [= <-]]; [|now left].
        destruct (decide (uuid = id)) as [<- | Hne]; [now left | now right].
  - split; [now left|]. intros [H | H]; [exact H|].
    unfold Server.get_share in H. now destruct (Server.select_image id' db).
Qed.

Lemma handle_size rq (db : gmap string Server.Row) :
  size (fst (Traffic.handle rq db))
  = size db + length (Traffic.handed_out [snd (Traffic.handle rq db)]).
Proof.
  destruct rq as [body uuid now|id']; cbn [Traffic.handle fst snd].
  - destruct (post_share_cases body uuid now db)
      as [[-> Hno] | (img & _ & _ & Hfresh & ->)].
    + destruct (snd (Server.post_share body uuid now db)) as [id| | | |];
        cbn; try lia. now destruct (Hno id).
    + cbn. rewrite map_size_insert_None by exact Hfresh. lia.
  - unfold Server.get_share. destruct (Server.select_image id' db); cbn; lia.
Qed.

Lemma serve_cons rq rqs (db : gmap string Server.Row) :
  Traffic.serve (rq :: rqs) db
  = (fst (Traffic.serve rqs (fst (Traffic.handle rq db))),
     snd (Traffic.handle rq db) :: snd (Traffic.serve rqs (fst (Traffic.handle rq db)))).
Proof.
  cbn [Traffic.serve]. destruct (Traffic.handle rq db) as [db1 answer].
  cbn [fst snd]. now destruct (Traffic.serve rqs db1).
Qed.

Lemma handed_out_cons answer answers :
  Traffic.handed_out (answer :: answers)
  = (Traffic.handed_out [answer] ++ Traffic.handed_out answers)%list.
Proof. now destruct answer. Qed.

Lemma serve_keeps_rows rqs : forall (db : gmap string Server.Row) id row,
  db !! id = Some row -> fst (Traffic.serve rqs db) !! id = Some row.
Proof.
  induction rqs as [|rq rqs IH]; intros db id row Hrow; [exact Hrow|].
  rewrite serve_cons. cbn [fst]. apply IH. now apply handle_keeps_rows.
Qed.

Lemma serve_keys rqs : forall (db : gmap string Server.Row) id,
  is_Some (fst (Traffic.serve rqs db) !! id)
  <-> is_Some (db !! id) \/ In id (Traffic.handed_out (snd (Traffic.serve rqs db))).
Proof.
  induction rqs as [|rq rqs IH]; intros db id.
  - cbn. tauto.
  - rewrite serve_cons. cbn [fst snd].
    rewrite (handed_out_cons (snd (Traffic.handle rq db))), in_app_iff, IH, handle_keys.
    assert (Hone : In id (Traffic.handed_out [snd (Traffic.handle rq db)])
                   <-> snd (Traffic.handle rq db) = Server.Json200 id).
    { destruct (snd (Traffic.handle rq db)); cbn; split;
        try tauto; try discriminate.
      - intros [-> | []]. reflexivity.
      - intros [= ->]. now left. }
    rewrite Hone. tauto.
Qed.

(** X16: the table only grows. Whatever requests follow, a row that is in
    the table stays there unchanged: the page served under its identifier is
    the same after them as before. *)
Theorem shared_page_is_permanent rqs (db : gmap string Server.Row) id row :
  db !! id = Some row ->
  fst (Traffic.serve rqs db) !! id = Some row
  /\ Server.get_share id (fst (Traffic.serve rqs db))
     = Server.Html200 {| Server.img_src := Server.image row;
                         Server.download_href := Server.image row |}.
Proof.
  intros Hrow. pose proof (serve_keeps_rows rqs db id row Hrow) as Hlater.
  split; [exact Hlater|].
  unfold Server.get_share, Server.select_image. now rewrite Hlater.
Qed.

Lemma shared_page_is_permanent_witness :
  Server.get_share "tok000" (fst (Traffic.serve Scenario.posts Sample.table))
  = Server.Html200 {| Server.img_src := Sample.photoB; Server.download_href := Sample.photoB |}.
Proof.
  exact (proj2 (shared_page_is_permanent Scenario.posts Sample.table "tok000"
                  {| Server.image := Sample.photoB;
                     Server.created_at := "2025-01-01 00:00:00" |} eq_refl)).
Defined.

(** X17: after any sequence of requests the table holds exactly the rows
    it held before and one row for each identifier handed out in a 200
    answer of [POST /api/share]: requests answered 400, 404 or 500, and
    every [GET], add nothing, and each accepted post adds one row. *)
Theorem table_grows_by_answers rqs (db : gmap string Server.Row) :
  size (fst (Traffic.serve rqs db))
  = size db + length (Traffic.handed_out (snd (Traffic.serve rqs db)))
  /\ forall id,
       is_Some (fst (Traffic.serve rqs db) !! id)
       <-> is_Some (db !! id) \/ In id (Traffic.handed_out (snd (Traffic.serve rqs db))).
Proof.
  split; [|intros id; apply serve_keys].
  revert db. induction rqs as [|rq rqs IH]; intros db; [cbn; lia|].
  rewrite serve_cons. cbn [fst snd].
  rewrite (handed_out_cons (snd (Traffic.handle rq db))), length_app.
  rewrite IH, handle_size. lia.
Qed.

(** X18: an identifier that was not in the table and was never handed out
    is answered 404 with the text [Image not found]. *)
Theorem unknown_id_is_not_found rqs (db : gmap string Server.Row) id :
  db !! id = None ->
  ~ In id (Traffic.handed_out (snd (Traffic.serve rqs db))) ->
  Server.get_share id (fst (Traffic.serve rqs db)) = Server.Text404 "Image not found".
Proof.
  intros Hnew Hnever. unfold Server.get_share, Server.select_image.
  destruct (fst (Traffic.serve rqs db) !! id) as [row|] eqn:Hrow; [|reflexivity].
  assert (Hsome : is_Some (fst (Traffic.serve rqs db) !! id)) by (now exists row).
  apply serve_keys in Hsome as [[row' Hold] | Hin]; [congruence | contradiction].
Qed.

Lemma unknown_id_is_not_found_witness :
  Server.get_share "tok999" (fst (Traffic.serve Scenario.posts Sample.table))
  = Server.Text404 "Image not found".
Proof.
  apply unknown_id_is_not_found; [reflexivity|].
  cbn. intros [H | [H | []]]; discriminate H.
Defined.

(** X19: nothing is deduplicated. Posting the same image twice, with two
    fresh identifiers, is answered with the two identifiers, adds two rows
    and both serve the image. *)
Theorem same_image_twice_two_rows (db : gmap string Server.Row) img u1 u2 now1 now2 :
  Js.truthy (Some img) = true ->
  db !! u1 = None -> db !! u2 = None -> u1 <> u2 ->
  let done := Traffic.serve
                [Traffic.Post {| Server.body_image := Some img |} u1 now1;
                 Traffic.Post {| Server.body_image := Some img |} u2 now2] db in
  snd done = [Server.Json200 u1; Server.Json200 u2]
  /\ size (fst done) = size db + 2
  /\ Server.select_image u1 (fst done) = Some img
  /\ Server.select_image u2 (fst done) = Some img.
Proof.
  intros Ht H1 H2 Hne done. subst done. cbn [Traffic.serve Traffic.handle].
  rewrite (post_share_accepts u1 now1 db img Ht H1).
  rewrite (post_share_accepts u2 now2 _ img Ht)
    by (rewrite lookup_insert_ne; [exact H2 | exact Hne]).
  cbn [fst snd]. unfold Server.select_image.
  rewrite lookup_insert_eq, lookup_insert_ne, lookup_insert_eq by congruence.
  rewrite !map_size_insert_None;
    [|exact H1 | rewrite lookup_insert_ne; [exact H2 | exact Hne]].
  repeat split. lia.
Qed.

Lemma same_image_twice_two_rows_witness :
  snd (Traffic.serve
         [Traffic.Post {| Server.body_image := Some Sample.photoA |}
            "tok001" "2025-01-02 10:00:00";
          Traffic.Post {| Server.body_image := Some Sample.photoA |}
            "tok002" "2025-01-02 10:00:01"] Sample.table)
  = [Server.Json200 "tok001"; Server.Json200 "tok002"].
Proof.
  refine (proj1 (same_image_twice_two_rows Sample.table Sample.photoA "tok001" "tok002"
                   "2025-01-02 10:00:00" "2025-01-02 10:00:01"
                   eq_refl eq_refl eq_refl _)).
  discriminate.
Defined.

(** X20: when the generated identifier is already a key of the table the
    insert fails: the answer is the 500, the table and the row under that
    key are as before, and the component is told no identifier. *)
Theorem taken_id_writes_nothing (db : gmap string Server.Row) img uuid now row :
  Js.truthy (Some img) = true ->
  db !! uuid = Some row ->
  Server.post_share {| Server.body_image := Some img |} uuid now db = (db, Server.Error500)
  /\ System.post (System.Up uuid now) img db = (db, Fetch.JsonRejects)
  /\ Fetch.delivered_id (snd (System.post (System.Up uuid now) img db)) = None.
Proof.
  intros Ht Hrow.
  assert (Hpost : Server.post_share {| Server.body_image := Some img |} uuid now db
                  = (db, Server.Error500)).
  { unfold Server.post_share. cbn [Server.body_image]. now rewrite Ht, Hrow. }
  unfold System.post. rewrite Hpost. now repeat split.
Qed.

Lemma taken_id_writes_nothing_witness :
  Server.post_share {| Server.body_image := Some Sample.photoA |}
    "tok000" "2025-01-02 10:00:00" Sample.table
  = (Sample.table, Server.Error500).
Proof.
  exact (proj1 (taken_id_writes_nothing Sample.table Sample.photoA "tok000"
                  "2025-01-02 10:00:00"
                  {| Server.image := Sample.photoB;
                     Server.created_at := "2025-01-01 00:00:00" |}
                  eq_refl eq_refl)).
Defined.

(** ** The component against the route *)

(** X21: the component never sends the route a body it rejects: every
    image posted by [handleReimagine] or [handleShare] is a non-empty
    string, so the answer is the new identifier or, on a taken identifier,
    the 500, and never the 400. *)
Theorem component_posts_are_accepted po fo s body uuid now (db : gmap string Server.Row) :
  In (App.PostShare body) (snd (App.handleReimagine po fo s))
  \/ In (App.PostShare body) (snd (App.handleShare fo s)) ->
  Js.truthy (Some body) = true
  /\ (snd (Server.post_share {| Server.body_image := Some body |} uuid now db)
      = Server.Json200 uuid
      \/ snd (Server.post_share {| Server.body_image := Some body |} uuid now db)
         = Server.Error500).
Proof.
  intros Hposted.
  assert (Ht : Js.truthy (Some body) = true).
  { destruct Hposted as [Hin | Hin].
    - destruct (reimagine_cases po fo s)
        as [[_ Heq] | [(img & Hi & Ht & Hn) | (img & b & Hi & Ht & Hb)]].
      + rewrite Heq in Hin. destruct Hin.
      + rewrite (reimagine_failure po fo s img Hi Ht Hn) in Hin.
        destruct Hin as [H | [H | []]]; discriminate H.
      + rewrite (reimagine_success po fo s img b Hi Ht Hb) in Hin. cbn [snd] in Hin.
        destruct Hin as [H | [[= <-] | Hin]]; [discriminate H | reflexivity |].
        destruct (store_share_log fo
                    (App.setResultImage (Some (App.newImage b)) (App.entered s)))
          as [Hlog | Hlog]; rewrite Hlog in Hin.
        * destruct Hin.
        * destruct Hin as [H | []]; discriminate H.
    - unfold App.handleShare, App.handleShare_enter in Hin.
      destruct (App.resultImage s) as [img|]; [|destruct Hin].
      destruct (Js.truthy (Some img)) eqn:Ht; [|destruct Hin].
      unfold App.handleShare_onResponse in Hin.
      pose proof (store_share_log fo (App.setIsSharing true s)) as Hlog.
      destruct (App.store_share fo _) as [s1 log]. cbn [snd] in *.
      destruct Hin as [[= <-] | Hin]; [exact Ht|].
      destruct Hlog as [-> | ->]; [destruct Hin|].
      destruct Hin as [H | []]; discriminate H. }
  split; [exact Ht|].
  unfold Server.post_share. cbn [Server.body_image]. rewrite Ht. cbn [negb].
  destruct (db !! uuid); [now right | now left].
Qed.

Lemma component_posts_are_accepted_witness :
  snd (Server.post_share {| Server.body_image := Some "data:image/png;base64,Q0ND" |}
         "tok123" "2025-01-02 10:00:00" Sample.table)
  = Server.Json200 "tok123"
  \/ snd (Server.post_share {| Server.body_image := Some "data:image/png;base64,Q0ND" |}
            "tok123" "2025-01-02 10:00:00" Sample.table)
     = Server.Error500.
Proof.
  refine (proj2 (component_posts_are_accepted Sample.with_image Sample.share_ok
                   (App.handleFileChange (Some Sample.fileA) App.initial)
                   "data:image/png;base64,Q0ND" "tok123" "2025-01-02 10:00:00"
                   Sample.table _)).
  left. right. left. reflexivity.
Defined.

Lemma chained_share_end_to_end_witness :
  let posted := Server.post_share {| Server.body_image := Some "data:image/png;base64,Q0ND" |}
                  "tok123" "2025-01-02 10:00:00" Sample.table in
  let s' := fst (App.handleReimagine Sample.with_image
                   (Server.seen_by_client (snd posted))
                   (App.handleFileChange (Some Sample.fileA) App.initial)) in
  App.shareId s' = Some "tok123"
  /\ App.qr_rendered s' = true
  /\ Server.get_share "tok123" (fst posted)
     = Server.Html200 {| Server.img_src := "data:image/png;base64,Q0ND";
                         Server.download_href := "data:image/png;base64,Q0ND" |}.
Proof.
  exact (chained_share_end_to_end
           (App.handleFileChange (Some Sample.fileA) App.initial) Sample.photoA
           Sample.with_image
           {| Gen.data := Some "Q0ND"; Gen.mimeType := Some "image/jpeg" |}
           "tok123" "2025-01-02 10:00:00" Sample.table
           eq_refl eq_refl eq_refl eq_refl eq_refl).
Defined.

(** ** The link of a session against the table *)

Lemma system_post_cases net img (db : gmap string Server.Row) :
  let db' := fst (System.post net img db) in
  let fo := snd (System.post net img db) in
  (forall id row, db !! id = Some row -> db' !! id = Some row)
  /\ (forall id, Fetch.delivered_id fo = Some id ->
        exists now, db' !! id = Some {| Server.image := img; Server.created_at := now |}).
Proof.
  destruct net as [|uuid now]; cbn [System.post].
  - split; [auto | discriminate].
  - pose proof (handle_keeps_rows
                  (Traffic.Post {| Server.body_image := Some img |} uuid now) db) as Hkeep.
    cbn [Traffic.handle] in Hkeep.
    destruct (post_share_cases {| Server.body_image := Some img |} uuid now db)
      as [[Hsame Hno] | (img' & [= <-] & _ & _ & Hpost)].
    + destruct (Server.post_share _ uuid now db) as [db' answer]. cbn [fst snd] in *.
      split; [exact Hkeep|]. intros id.
      destruct answer as [id'| | | |]; cbn; try discriminate.
      now destruct (Hno id').
    + rewrite Hpost in *. cbn [fst snd Server.seen_by_client Fetch.delivered_id] in *.
      split; [exact Hkeep|]. intros id.
      destruct (Js.truthy (Some uuid)); [|discriminate].
      intros [= <-]. exists now. apply lookup_insert_eq.
Qed.

(** The link of the session leads to a row that holds an image labelled
    PNG, and so does the result. *)
Lemma linked_apply op s (db : gmap string Server.Row) :
  (forall r, App.resultImage s = Some r -> Js.startsWith r "data:image/png;base64," = true) ->
  (forall id, App.shareId s = Some id ->
     exists row, db !! id = Some row
                 /\ Js.startsWith (Server.image row) "data:image/png;base64," = true) ->
  let s' := fst (System.apply op s db) in
  let db' := snd (System.apply op s db) in
  (forall r, App.resultImage s' = Some r -> Js.startsWith r "data:image/png;base64," = true)
  /\ (forall id, App.shareId s' = Some id ->
        exists row, db' !! id = Some row
                    /\ Js.startsWith (Server.image row) "data:image/png;base64," = true).
Proof.
  intros Hpng Hlink.
  assert (Hshared : forall net img s1,
    App.resultImage s1 = Some img ->
    Js.startsWith img "data:image/png;base64," = true ->
    App.shareId s1 = App.shareId s ->
    forall s2,
      App.resultImage s2 = App.resultImage (fst (App.store_share (snd (System.post net img db)) s1)) ->
      App.shareId s2 = App.shareId (fst (App.store_share (snd (System.post net img db)) s1)) ->
      (forall r, App.resultImage s2 = Some r ->
         Js.startsWith r "data:image/png;base64," = true)
      /\ (forall id, App.shareId s2 = Some id ->
            exists row, fst (System.post net img db) !! id = Some row
                        /\ Js.startsWith (Server.image row) "data:image/png;base64," = true)).
  { intros net img s1 Hr1 Himg Hs1 s2 Hr2 Hs2.
    destruct (system_post_cases net img db) as [Hkeep Hnew].
    pose proof (store_share_cells (snd (System.post net img db)) s1)
      as (_ & _ & Hr & _ & _ & _ & Hs).
    cbn zeta in Hr, Hs. rewrite Hr2, Hr, Hr1. rewrite Hs2, Hs. split.
    - now intros r [= <-].
    - intros id Hid.
      destruct (Fetch.delivered_id (snd (System.post net img db))) as [id'|] eqn:Hd.
      + injection Hid as <-. destruct (Hnew id' eq_refl) as [now Hrow].
        eexists. split; [exact Hrow | exact Himg].
      + rewrite Hs1 in Hid. destruct (Hlink id Hid) as (row & Hrow & Hp).
        exists row. split; [now apply Hkeep | exact Hp]. }
  destruct op as [file|file|job|po net|net|rq]; cbn [System.apply fst snd].
  - destruct (photo_result_cells file s) as [-> | (Hr & _ & Hs)]; [now split|].
    rewrite Hr, Hs. split; [discriminate | exact Hlink].
  - destruct (drop_result_cells file s) as [-> | (Hr & _ & Hs)]; [now split|].
    rewrite Hr, Hs. split; [discriminate | exact Hlink].
  - now split.
  - unfold System.reimagine.
    destruct (App.handleReimagine_enter s) as [[s1 req]|] eqn:Henter; [|now split].
    assert (Hs1 : s1 = App.entered s).
    { unfold App.handleReimagine_enter in Henter.
      destruct (App.image s) as [img|]; [|discriminate].
      destruct (Js.truthy (Some img)); [|discriminate]. now injection Henter as <- _. }
    subst s1.
    destruct po as [err|r]; cbn [App.handleReimagine_onGenerate App.catch_block fst snd];
      [now split|].
    destruct (App.found_inline r) as [b|]; [|now split].
    unfold App.handleReimagine_onShare.
    destruct (System.post net (App.newImage b) db) as [db' fo] eqn:Hpost.
    cbn [fst snd].
    specialize (Hshared net (App.newImage b)
                  (App.setResultImage (Some (App.newImage b)) (App.entered s))
                  eq_refl eq_refl eq_refl).
    rewrite Hpost in Hshared. cbn [fst snd] in Hshared.
    destruct (App.store_share fo _) as [s3 log]. now apply Hshared.
  - unfold System.share, App.handleShare_enter.
    destruct (App.resultImage s) as [img|] eqn:Hr;
      [|cbn [fst snd]; rewrite Hr; split; assumption].
    destruct (Js.truthy (Some img)); [|cbn [fst snd]; rewrite Hr; split; assumption].
    unfold App.handleShare_onResponse.
    destruct (System.post net img db) as [db' fo] eqn:Hpost. cbn [fst snd].
    specialize (Hshared net img (App.setIsSharing true s) Hr (Hpng img eq_refl) eq_refl).
    rewrite Hpost in Hshared. cbn [fst snd] in Hshared.
    destruct (App.store_share fo _) as [s3 log]. now apply Hshared.
  - split; [exact Hpng|]. intros id Hid.
    destruct (Hlink id Hid) as (row & Hrow & Hp).
    exists row. split; [now apply handle_keeps_rows | exact Hp].
Qed.

(** X22: the link of a session never dangles. In every state reached from
    a page load by operations of the session and by requests of other
    clients, [GET /share/:id] under the session's [shareId] answers 200 with
    a page whose image and download link are one string labelled
    [image/png]. *)
Theorem session_link_is_served (db0 : gmap string Server.Row) s db id :
  System.reachable db0 s db ->
  App.shareId s = Some id ->
  exists img,
    Server.get_share id db
    = Server.Html200 {| Server.img_src := img; Server.download_href := img |}
    /\ Js.startsWith img "data:image/png;base64," = true.
Proof.
  intros Hreach.
  assert (Hinv :
    (forall r, App.resultImage s = Some r ->
       Js.startsWith r "data:image/png;base64," = true)
    /\ (forall id, App.shareId s = Some id ->
          exists row, db !! id = Some row
                      /\ Js.startsWith (Server.image row) "data:image/png;base64," = true)).
  { induction Hreach as [|s db op _ [Hpng Hlink]]; [split; discriminate|].
    now apply linked_apply. }
  intros Hid. destruct Hinv as [_ Hlink].
  destruct (Hlink id Hid) as (row & Hrow & Hp).
  exists (Server.image row). split; [|exact Hp].
  unfold Server.get_share, Server.select_image. now rewrite Hrow.
Qed.

Lemma session_link_is_served_witness :
  exists img,
    Server.get_share "tok123"
      (snd (System.apply
              (System.Reimagine Sample.with_image (System.Up "tok123" "2025-01-02 10:00:00"))
              (App.handleFileChange (Some Sample.fileA) App.initial) Sample.table))
    = Server.Html200 {| Server.img_src := img; Server.download_href := img |}
    /\ Js.startsWith img "data:image/png;base64," = true.
Proof.
  apply (session_link_is_served Sample.table
           (fst (System.apply
                   (System.Reimagine Sample.with_image
                      (System.Up "tok123" "2025-01-02 10:00:00"))
                   (App.handleFileChange (Some Sample.fileA) App.initial) Sample.table))).
  - apply System.reachable_apply.
    apply (System.reachable_apply Sample.table App.initial Sample.table
             (System.FileChange (Some Sample.fileA))).
    apply System.reachable_load.
  - reflexivity.
Defined.

(** The component run against the route is the component: on a state the
    combined step ends where the handler ends, given the answer of the
    route. *)
Lemma system_reimagine_is_handler po net s (db : gmap string Server.Row) :
  exists fo,
    fst (System.reimagine po net s db) = fst (App.handleReimagine po fo s).
Proof.
  unfold System.reimagine, App.handleReimagine.
  destruct (App.handleReimagine_enter s) as [[s1 req]|]; [|now exists Fetch.FetchRejects].
  destruct (App.handleReimagine_onGenerate po s1) as [s2 log|s2 img];
    [now exists Fetch.FetchRejects|].
  exists (snd (System.post net img db)).
  destruct (System.post net img db) as [db' fo]. cbn [fst snd].
  now destruct (App.handleReimagine_onShare fo s2).
Qed.

(** ** The address in the QR code *)

Lemma share_link_cells fo s :
  App.shareId (fst (App.handleShare fo s)) = App.shareId s
  \/ exists id, Fetch.delivered_id fo = Some id
                /\ App.shareId (fst (App.handleShare fo s)) = Some id.
Proof.
  unfold App.handleShare, App.handleShare_enter.
  destruct (App.resultImage s) as [img|]; [|now left].
  destruct (Js.truthy (Some img)); [|now left].
  unfold App.handleShare_onResponse.
  pose proof (store_share_cells fo (App.setIsSharing true s)) as (_ & _ & _ & _ & _ & _ & Hs).
  destruct (App.store_share fo _) as [s1 log]. cbn in *.
  destruct (Fetch.delivered_id fo) as [id|]; [right; now exists id | now left].
Qed.

Lemma held_link_is_nonempty s :
  App.reachable s -> forall id, App.shareId s = Some id -> Js.truthy (Some id) = true.
Proof.
  induction 1 as [|s op _ IH]; [discriminate|].
  intros id. destruct op as [file|file|job|po fo|fo]; cbn [App.apply].
  - destruct (photo_result_cells file s) as [-> | (_ & _ & ->)]; apply IH.
  - destruct (drop_result_cells file s) as [-> | (_ & _ & ->)]; apply IH.
  - apply IH.
  - destruct (reimagine_result_cells po fo s)
      as [-> | [(_ & _ & _ & -> & _) | (b & _ & _ & _ & ->)]]; try apply IH.
    destruct (Fetch.delivered_id fo) as [id'|] eqn:Hd; [|apply IH].
    intros [= <-]. now apply (delivered_id_truthy fo).
  - destruct (share_link_cells fo s) as [-> | (id' & Hd & ->)]; [apply IH|].
    intros [= <-]. now apply (delivered_id_truthy fo).
Qed.

(** X24: a session never holds an empty share identifier, so the address
    put in the QR code is the origin followed by [/share/] and the
    identifier whenever there is one, and is empty exactly when there is
    none; the overlay is only rendered with an address. *)
Theorem share_url_has_the_id origin s :
  App.reachable s ->
  Ui.shareUrl origin s
  = match App.shareId s with
    | Some id => origin ++ "/share/" ++ id
    | None => ""
    end
  /\ (App.qr_rendered s = true ->
      exists id, id <> "" /\ Ui.shareUrl origin s = origin ++ "/share/" ++ id).
Proof.
  intros Hreach. pose proof (held_link_is_nonempty s Hreach) as Hheld.
  unfold Ui.shareUrl, App.qr_rendered.
  destruct (App.shareId s) as [id|].
  - rewrite (Hheld id eq_refl). split; [reflexivity|]. intros _.
    exists id. split; [|reflexivity].
    intros ->. now specialize (Hheld "" eq_refl).
  - split; [reflexivity|]. now destruct (App.status s).
Qed.

Lemma share_url_has_the_id_witness :
  Ui.shareUrl "http://localhost:3000" Sample.shared = "http://localhost:3000/share/tok123".
Proof.
  exact (proj1 (share_url_has_the_id "http://localhost:3000" Sample.shared reachable_shared)).
Defined.

(** ** The session step by step *)

Lemma enter_cells s s1 req :
  App.handleReimagine_enter s = Some (s1, req) ->
  s1 = App.entered s /\ Js.truthy (App.image s) = true.
Proof.
  unfold App.handleReimagine_enter.
  destruct (App.image s) as [img|]; [|discriminate].
  destruct (Js.truthy (Some img)) eqn:Ht; [|discriminate].
  intros [= <- _]. now split.
Qed.

Lemma onGenerate_cells po s :
  match App.handleReimagine_onGenerate po s with
  | App.Finished s2 _ =>
      App.resultImage s2 = App.resultImage s
      /\ Js.truthy (App.error s2) = true
  | App.AwaitingShare s2 body =>
      App.resultImage s2 = Some body /\ Js.truthy (Some body) = true
      /\ App.error s2 = App.error s
  end
  /\ let s2 := match App.handleReimagine_onGenerate po s with
               | App.Finished s2 _ | App.AwaitingShare s2 _ => s2
               end in
     App.image s2 = App.image s /\ App.shareId s2 = App.shareId s.
Proof.
  destruct po as [err|r]; cbn [App.handleReimagine_onGenerate App.catch_block].
  - cbn. split; [|now split]. split; [reflexivity|].
    exact (failure_message_truthy (Gen.Rejects err)).
  - destruct (App.found_inline r) as [b|]; cbn; now repeat split.
Qed.

Lemma onShare_cells fo s :
  let s' := fst (App.handleReimagine_onShare fo s) in
  App.image s' = App.image s
  /\ App.resultImage s' = App.resultImage s
  /\ App.error s' = App.error s
  /\ App.shareId s'
     = match Fetch.delivered_id fo with Some id => Some id | None => App.shareId s end.
Proof.
  unfold App.handleReimagine_onShare.
  pose proof (store_share_cells fo s) as (_ & Hi & Hr & _ & _ & He & Hs).
  destruct (App.store_share fo s) as [s1 log]. cbn in *. now repeat split.
Qed.

Lemma share_enter_cells s s1 body :
  App.handleShare_enter s = Some (s1, body) ->
  s1 = App.setIsSharing true s
  /\ App.resultImage s = Some body /\ Js.truthy (Some body) = true.
Proof.
  unfold App.handleShare_enter.
  destruct (App.resultImage s) as [img|]; [|discriminate].
  destruct (Js.truthy (Some img)) eqn:Ht; [|discriminate].
  intros [= <- <-]. now repeat split.
Qed.

Lemma onResponse_cells fo s :
  let s' := fst (App.handleShare_onResponse fo s) in
  App.image s' = App.image s
  /\ App.resultImage s' = App.resultImage s
  /\ App.error s' = App.error s
  /\ App.shareId s'
     = match Fetch.delivered_id fo with Some id => Some id | None => App.shareId s end.
Proof.
  unfold App.handleShare_onResponse.
  pose proof (store_share_cells fo s) as (_ & Hi & Hr & _ & _ & He & Hs).
  destruct (App.store_share fo s) as [s1 log]. cbn in *. now repeat split.
Qed.

(** An operation that runs to completion is the sequence of its steps. *)
Lemma live_runs_operation op st :
  Live.at_provider st = 0 -> Live.at_auto_share st = 0 -> Live.at_share st = 0 ->
  Live.run (Live.steps_of op) st = Live.with_cells (App.apply op (Live.cells st)) st.
Proof.
  destruct st as [s p a h]. cbn. intros -> -> ->.
  destruct op as [file|file|job|po fo|fo]; cbn; try reflexivity.
  - unfold App.handleReimagine.
    destruct (App.handleReimagine_enter s) as [[s1 req]|]; cbn; [|reflexivity].
    destruct (App.handleReimagine_onGenerate po s1) as [s2 log|s2 body]; cbn;
      [reflexivity|].
    now destruct (App.handleReimagine_onShare fo s2).
  - unfold App.handleShare.
    destruct (App.handleShare_enter s) as [[s1 body]|]; cbn; [|reflexivity].
    now destruct (App.handleShare_onResponse fo s1).
Qed.

(** A share identifier, or a share request on its way, comes with a
    result. *)
Lemma link_has_result_step ev st :
  (Js.truthy (App.shareId (Live.cells st)) || Live.share_outstanding st = true ->
   Js.truthy (App.resultImage (Live.cells st)) = true) ->
  negb (Live.chooses_photo ev
        && (Js.truthy (App.shareId (Live.cells st)) || Live.share_outstanding st)) = true ->
  Js.truthy (App.shareId (Live.cells (Live.step ev st)))
  || Live.share_outstanding (Live.step ev st) = true ->
  Js.truthy (App.resultImage (Live.cells (Live.step ev st))) = true.
Proof.
  destruct st as [s p a h]. unfold Live.share_outstanding. cbn [Live.cells Live.at_auto_share Live.at_share].
  intros Hinv Hguard.
  destruct ev as [file|file|job| |po|fo| |fo];
    cbn [Live.step Live.cells Live.at_provider Live.at_auto_share Live.at_share
         Live.with_cells Live.chooses_photo andb] in *.
  - apply negb_true_iff in Hguard.
    destruct (photo_result_cells file s) as [-> | (_ & _ & Hs)]; [exact Hinv|].
    rewrite Hs. congruence.
  - apply negb_true_iff in Hguard.
    destruct (drop_result_cells file s) as [-> | (_ & _ & Hs)]; [exact Hinv|].
    rewrite Hs. congruence.
  - exact Hinv.
  - destruct (App.handleReimagine_enter s) as [[s1 req]|] eqn:Henter; [|exact Hinv].
    apply enter_cells in Henter as [-> _]. exact Hinv.
  - destruct p as [|waiting]; [exact Hinv|].
    pose proof (onGenerate_cells po s) as [Hcase [_ Hs]].
    destruct (App.handleReimagine_onGenerate po s) as [s2 log|s2 body];
      cbn [Live.cells Live.at_auto_share Live.at_share] in *.
    + destruct Hcase as [Hr _]. now rewrite Hr, Hs.
    + destruct Hcase as (Hr & Ht & _). now rewrite Hr.
  - destruct a as [|waiting]; [exact Hinv|].
    cbn [Live.cells Live.at_auto_share Live.at_share].
    destruct (onShare_cells fo s) as (_ & Hr & _). intros _. rewrite Hr.
    apply Hinv. apply orb_true_r.
  - destruct (App.handleShare_enter s) as [[s1 body]|] eqn:Henter; [|exact Hinv].
    apply share_enter_cells in Henter as (-> & Hr & Ht). intros _.
    cbn. now rewrite Hr.
  - destruct h as [|waiting]; [exact Hinv|].
    cbn [Live.cells Live.at_auto_share Live.at_share].
    destruct (onResponse_cells fo s) as (_ & Hr & _). intros _. rewrite Hr.
    apply Hinv. rewrite Nat.add_succ_r. apply orb_true_r.
Qed.

Lemma link_has_result_run evs : forall st,
  (Js.truthy (App.shareId (Live.cells st)) || Live.share_outstanding st = true ->
   Js.truthy (App.resultImage (Live.cells st)) = true) ->
  Live.photo_clear_of_share evs st = true ->
  Js.truthy (App.shareId (Live.cells (Live.run evs st)))
  || Live.share_outstanding (Live.run evs st) = true ->
  Js.truthy (App.resultImage (Live.cells (Live.run evs st))) = true.
Proof.
  induction evs as [|ev evs IH]; intros st Hinv Hguard; [exact Hinv|].
  cbn in Hguard. apply andb_true_iff in Hguard as [Hev Hrest].
  cbn. apply IH; [|exact Hrest]. now apply link_has_result_step.
Qed.

(** C1, amended: in every state reached from the initial one by steps of
    the session taken in any order (a photo, an occupation, a press of
    either button, an answer of the provider, an answer to the chained share
    or to [handleShare]), among which no photo is chosen while a share
    identifier is held or a share request is on its way, a non-empty
    [shareId] comes with a non-empty [resultImage]. *)
Theorem share_link_has_result_stepwise evs :
  Live.photo_clear_of_share evs Live.initial = true ->
  Js.truthy (App.shareId (Live.cells (Live.run evs Live.initial))) = true ->
  Js.truthy (App.resultImage (Live.cells (Live.run evs Live.initial))) = true.
Proof.
  intros Hguard Hheld.
  apply (link_has_result_run evs Live.initial); [discriminate | exact Hguard |].
  now rewrite Hheld.
Qed.

Lemma share_link_has_result_stepwise_witness :
  Live.photo_clear_of_share Scenario.stepwise Live.initial = true
  /\ Js.truthy (App.shareId (Live.cells (Live.run Scenario.stepwise Live.initial))) = true
  /\ Js.truthy (App.resultImage (Live.cells (Live.run Scenario.stepwise Live.initial))) = true.
Proof.
  split; [reflexivity|]. split; [reflexivity|].
  apply (share_link_has_result_stepwise Scenario.stepwise); reflexivity.
Defined.

(** Why the share request on its way is part of the condition: a photo
    chosen after the result is set and before the answer to the chained
    share arrives is chosen while [shareId] is still empty, and the session
    ends with the identifier and without a result. *)
Example photo_before_link_ends_without_result :
  let st := Live.run Scenario.photo_before_link Live.initial in
  App.shareId (Live.cells st) = Some "tok123"
  /\ App.resultImage (Live.cells st) = None
  /\ Live.photo_clear_of_share Scenario.photo_before_link Live.initial = false.
Proof. repeat split. Qed.

(** A provider call on its way, a result or an error comes with a photo. *)
Lemma outcome_has_photo_step ev st :
  (negb (Nat.eqb (Live.at_provider st) 0)
   || Js.truthy (App.resultImage (Live.cells st))
   || Js.truthy (App.error (Live.cells st)) = true ->
   Js.truthy (App.image (Live.cells st)) = true) ->
  match Live.delivers ev with
  | Some result => Nat.eqb (Live.at_provider st) 0 || Js.truthy result
  | None => true
  end = true ->
  negb (Nat.eqb (Live.at_provider (Live.step ev st)) 0)
  || Js.truthy (App.resultImage (Live.cells (Live.step ev st)))
  || Js.truthy (App.error (Live.cells (Live.step ev st))) = true ->
  Js.truthy (App.image (Live.cells (Live.step ev st))) = true.
Proof.
  destruct st as [s p a h]. cbn [Live.cells Live.at_provider].
  intros Hinv Hguard.
  assert (Hread : forall result,
            Nat.eqb p 0 || Js.truthy result = true ->
            negb (Nat.eqb p 0)
            || Js.truthy (App.resultImage (App.onloadend result s))
            || Js.truthy (App.error (App.onloadend result s)) = true ->
            Js.truthy (App.image (App.onloadend result s)) = true).
  { intros result Hok. cbn. rewrite !orb_false_r.
    destruct (Nat.eqb p 0); [discriminate | intros _; exact Hok]. }
  destruct ev as [file|file|job| |po|fo| |fo];
    cbn [Live.step Live.cells Live.at_provider Live.at_auto_share Live.at_share
         Live.with_cells Live.delivers] in *.
  - destruct file as [f|]; [now apply Hread | exact Hinv].
  - unfold App.onDrop. destruct file as [f|]; [|exact Hinv].
    destruct (Js.startsWith _ _); [now apply Hread | exact Hinv].
  - exact Hinv.
  - destruct (App.handleReimagine_enter s) as [[s1 req]|] eqn:Henter; [|exact Hinv].
    apply enter_cells in Henter as [-> Hphoto]. intros _. exact Hphoto.
  - destruct p as [|waiting]; [exact Hinv|].
    pose proof (onGenerate_cells po s) as [_ [Hi _]].
    destruct (App.handleReimagine_onGenerate po s) as [s2 log|s2 body];
      cbn [Live.cells Live.at_provider Live.at_auto_share Live.at_share] in *;
      intros _; rewrite Hi; now apply Hinv.
  - destruct a as [|waiting]; [exact Hinv|]. cbn [Live.cells Live.at_provider Live.at_auto_share Live.at_share].
    destruct (onShare_cells fo s) as (Hi & Hr & He & _). now rewrite Hi, Hr, He.
  - destruct (App.handleShare_enter s) as [[s1 body]|] eqn:Henter; [|exact Hinv].
    apply share_enter_cells in Henter as (-> & _). exact Hinv.
  - destruct h as [|waiting]; [exact Hinv|]. cbn [Live.cells Live.at_provider Live.at_auto_share Live.at_share].
    destruct (onResponse_cells fo s) as (Hi & Hr & He & _). now rewrite Hi, Hr, He.
Qed.

Lemma outcome_has_photo_run evs : forall st,
  (negb (Nat.eqb (Live.at_provider st) 0)
   || Js.truthy (App.resultImage (Live.cells st))
   || Js.truthy (App.error (Live.cells st)) = true ->
   Js.truthy (App.image (Live.cells st)) = true) ->
  Live.reads_hold evs st = true ->
  negb (Nat.eqb (Live.at_provider (Live.run evs st)) 0)
  || Js.truthy (App.resultImage (Live.cells (Live.run evs st)))
  || Js.truthy (App.error (Live.cells (Live.run evs st))) = true ->
  Js.truthy (App.image (Live.cells (Live.run evs st))) = true.
Proof.
  induction evs as [|ev evs IH]; intros st Hinv Hguard; [exact Hinv|].
  cbn in Hguard. apply andb_true_iff in Hguard as [Hev Hrest].
  cbn. apply IH; [|exact Hrest]. now apply outcome_has_photo_step.
Qed.

(** X10: take the steps of a session in any order, with no read that ends
    empty while a provider call is outstanding. Whenever the result or the
    error panel is shown, a photo is present: the main button is enabled,
    and pressing it or the retry button goes through the guard and sends a
    request. *)
Theorem shown_outcome_can_be_retried evs :
  Live.reads_hold evs Live.initial = true ->
  App.status (Live.cells (Live.run evs Live.initial)) = App.Ready
  \/ App.status (Live.cells (Live.run evs Live.initial)) = App.Failed ->
  App.reimagine_disabled (Live.cells (Live.run evs Live.initial)) = false
  /\ exists req,
       App.handleReimagine_enter (Live.cells (Live.run evs Live.initial))
       = Some (App.entered (Live.cells (Live.run evs Live.initial)), req).
Proof.
  intros Hguard Hshown.
  pose proof (outcome_has_photo_run evs Live.initial) as Hphoto.
  set (s := Live.cells (Live.run evs Live.initial)) in *.
  assert (Hfacts : App.isProcessing s = false
                   /\ Js.truthy (App.resultImage s) || Js.truthy (App.error s) = true).
  { unfold App.status in Hshown.
    destruct (App.isProcessing s); [destruct Hshown as [H | H]; discriminate H|].
    split; [reflexivity|].
    destruct (Js.truthy (App.resultImage s)); [reflexivity|].
    destruct (Js.truthy (App.error s)); [reflexivity|].
    destruct Hshown as [H | H]; discriminate H. }
  destruct Hfacts as [Hidle Hsome].
  assert (Hi : Js.truthy (App.image s) = true).
  { apply Hphoto; [discriminate | exact Hguard |].
    rewrite <- orb_assoc, Hsome. apply orb_true_r. }
  unfold App.reimagine_disabled. rewrite Hi, Hidle. split; [reflexivity|].
  destruct (App.image s) as [img|] eqn:Himg; [|discriminate].
  exists (App.build_request img (App.selectedJob s)).
  apply enter_with_photo; assumption.
Qed.

Lemma shown_outcome_can_be_retried_witness :
  App.reimagine_disabled (Live.cells (Live.run Scenario.stepwise Live.initial)) = false.
Proof.
  exact (proj1 (shown_outcome_can_be_retried Scenario.stepwise eq_refl (or_introl eq_refl))).
Defined.

(** Why the reads are part of the condition: a read that ends empty while
    the provider is working leaves the result shown over no photo, with the
    main button disabled and the guard closed. *)
Example result_without_photo :
  let s := Live.cells (Live.run Scenario.read_fails_meanwhile Live.initial) in
  App.status s = App.Ready
  /\ App.image s = None
  /\ App.reimagine_disabled s = true
  /\ App.handleReimagine_enter s = None
  /\ Live.reads_hold Scenario.read_fails_meanwhile Live.initial = false.
Proof. repeat split. Qed.
